(** * Rule 110 cellular automaton (main.c): bit-packed state and in-place step

    A shallow embedding of [main.c].  The state array is a list of blocks
    ([uint8_t] values as [Z]), a [bit_view_t] is a block offset from
    [state_array] together with a bit position, and the functions that
    dereference views run in a small state-and-error monad whose failures
    are the two ways the C program can leave its defined behaviour: an
    [assert] that fires, and an access the language leaves undefined. *)

From stdpp Require Import base list.
From Stdlib Require Import ZArith Bool Lia Ascii.
From Stdlib Require String.

Local Open Scope Z_scope.

(** ** Configuration constants *)

(** [typedef uint8_t block_t;] *)
Definition block_t : Type := Z.
Definition sizeof_block_t : Z := 1.

(** Conversions to the unsigned 8-bit types ([block_t], and the [uint8_t]
    field [position]). *)
Definition to_block_t (z : Z) : block_t := z mod 2 ^ (8 * sizeof_block_t).
Definition to_uint8_t (z : Z) : Z := z mod 256.

(** [#define BLOCK_SIZE 8 * sizeof(block_t)].  The macro has no parentheses
    of its own, so the places where the precedence of the surrounding
    expression matters ([i / BLOCK_SIZE], [i % BLOCK_SIZE]) are written
    below the way the preprocessor expands them. *)
Definition BLOCK_SIZE : Z := 8 * sizeof_block_t.

(** [#define ARRAY_SIZE STATE_SIZE / BLOCK_SIZE + (STATE_SIZE % BLOCK_SIZE != 0)],
    expanded: [STATE_SIZE / 8 * sizeof(block_t)
               + (STATE_SIZE % 8 * sizeof(block_t) != 0)]. *)
Definition ARRAY_SIZE (STATE_SIZE : Z) : Z :=
  STATE_SIZE / 8 * sizeof_block_t
  + (if (STATE_SIZE mod 8) * sizeof_block_t =? 0 then 0 else 1).

(** [#define STATE_SIZE (3*8)], the value the program is built with.  The
    functions below take the cell count as an argument so that the
    statements about every row length can be made; [main] instantiates
    it with this value. *)
Definition STATE_SIZE_main : Z := 3 * 8.

(** ** Views, events, and the machine *)

(** [typedef struct { block_t *pblock; uint8_t position; } bit_view_t;]
    [pblock] is kept as the offset of the block from [state_array]. *)
Record bit_view_t : Type := mk_view { pblock : Z; position : Z }.

(** A record of each dereference, in program order: [get_bit] logs the view
    it read and the value it returned, [bit_flip] logs the view it wrote.
    The log is bookkeeping of the model; the C code has no counterpart. *)
Inductive event : Type :=
| Read (v : bit_view_t) (b : bool)
| Flip (v : bit_view_t).

Definition event_view (e : event) : bit_view_t :=
  match e with Read v _ => v | Flip v => v end.

Record machine : Type := mk_machine { mem : list block_t; log : list event }.

Inductive outcome (A : Type) : Type :=
| Done (a : A)        (* normal return *)
| AssertFailed        (* an [assert] aborted the program *)
| Undefined.          (* out-of-bounds access, uninitialised read, bad shift *)
Arguments Done {A} a.
Arguments AssertFailed {A}.
Arguments Undefined {A}.

Definition M (A : Type) : Type := machine -> outcome (A * machine).

Definition ret {A} (a : A) : M A := fun m => Done (a, m).
Definition bind {A B} (c : M A) (k : A -> M B) : M B :=
  fun m => match c m with
           | Done (a, m') => k a m'
           | AssertFailed => AssertFailed
           | Undefined => Undefined
           end.
Definition abort {A} : M A := fun _ => AssertFailed.
Definition undefined {A} : M A := fun _ => Undefined.

Notation "x <- c ;; k" := (bind c (fun x => k))
  (at level 100, c at next level, right associativity).
Notation "c ;;; k" := (bind c (fun _ => k))
  (at level 100, right associativity).

(** [assert(p != NULL)] for a pointer modelled as an [option]. *)
Definition assert_not_null {A B} (p : option A) (k : A -> M B) : M B :=
  match p with Some a => k a | None => abort end.

(** Reading and writing the block at offset [p] from [state_array]. *)
Definition load_block (p : Z) : M block_t :=
  fun m => if p <? 0 then Undefined
           else match mem m !! Z.to_nat p with
                | Some b => Done (b, m)
                | None => Undefined
                end.

Definition store_block (p : Z) (b : block_t) : M unit :=
  fun m => if p <? 0 then Undefined
           else match mem m !! Z.to_nat p with
                | Some _ => Done (tt, mk_machine (<[Z.to_nat p := b]> (mem m)) (log m))
                | None => Undefined
                end.

Definition emit (e : event) : M unit :=
  fun m => Done (tt, mk_machine (mem m) (log m ++ [e])).

(** A shift of an [int] (32 bits) by [n]: defined for [0 <= n < 32], and a
    left shift of [1] must stay below [2^31]. *)
Definition shl_int_1 (n : Z) : M Z :=
  if (0 <=? n) && (n <? 31) then ret (Z.shiftl 1 n) else undefined.
Definition shr_int (x n : Z) : M Z :=
  if (0 <=? n) && (n <? 32) then ret (Z.shiftr x n) else undefined.

(** ** Bit access *)

(** [static void bit_flip(const bit_view_t *pview)]:
    the block is XOR-assigned [1 << pview->position]. *)
Definition bit_flip (pview : option bit_view_t) : M unit :=
  assert_not_null pview (fun v =>
    b <- load_block (pblock v) ;;
    s <- shl_int_1 (position v) ;;
    store_block (pblock v) (to_block_t (Z.lxor b s)) ;;;
    emit (Flip v)).

(** [static void conditional_bit_flip(const bit_view_t *pview, bool flip)] *)
Definition conditional_bit_flip (pview : option bit_view_t) (flip : bool) : M unit :=
  assert_not_null pview (fun _ =>
    if flip then bit_flip pview else ret tt).

(** [static bool get_bit(const bit_view_t *pview)]:
    the block shifted right by the position, masked with 1, converted to
    [bool]. *)
Definition get_bit (pview : option bit_view_t) : M bool :=
  assert_not_null pview (fun v =>
    b <- load_block (pblock v) ;;
    s <- shr_int b (position v) ;;
    let r := negb (Z.land s 1 =? 0) in
    emit (Read v r) ;;;
    ret r).

(** [static bool evaluate(pleft_view, pcenter_view, pright_view, pflip_rules)].
    The three reads are sequenced left to right; they have no side effect
    on the state, so the order only fixes the order of the log. *)
Definition evaluate (pleft_view pcenter_view pright_view : option bit_view_t)
    (pflip_rules : option (list bool)) : M bool :=
  assert_not_null pleft_view (fun _ =>
  assert_not_null pcenter_view (fun _ =>
  assert_not_null pright_view (fun _ =>
  assert_not_null pflip_rules (fun rules =>
    l <- get_bit pleft_view ;;
    c <- get_bit pcenter_view ;;
    r <- get_bit pright_view ;;
    let value := Z.shiftl (Z.b2z l) 2 + Z.shiftl (Z.b2z c) 1 + Z.b2z r in
    match rules !! Z.to_nat value with
    | Some res => ret res
    | None => undefined
    end)))).

(** ** The step *)

(** The local variables of [automaton_step].  [curr_result] is declared
    without an initialiser (line 103), hence the [option]. *)
Record locals : Type := mk_locals {
  left_view : bit_view_t;
  center_view : bit_view_t;
  right_view : bit_view_t;
  prev_result : bool;
  curr_result : option bool
}.

(** One pass through the body of the [for] loop, for the value [i] of the
    loop counter. *)
Definition loop_body (pflip_rules : option (list bool)) (i : Z) (ls : locals) : M locals :=
  (* compute the middle cell *)
  curr <- evaluate (Some (left_view ls)) (Some (center_view ls))
                   (Some (right_view ls)) pflip_rules ;;
  (* set the left cell *)
  conditional_bit_flip (Some (left_view ls)) (prev_result ls) ;;;
  (* move right *)
  ret {| prev_result := curr;
         curr_result := Some curr;
         left_view := center_view ls;
         center_view := right_view ls;
         right_view :=
           {| pblock := i / 8 * sizeof_block_t;
              position := to_uint8_t (8 * sizeof_block_t - 1
                                      - (i mod 8) * sizeof_block_t) |} |}.

(** [for (size_t i = 3; i < STATE_SIZE + 1; i++) body]: [n] is the number of
    passes still to run. *)
Fixpoint for_loop (pflip_rules : option (list bool)) (n : nat) (i : Z)
    (ls : locals) : M locals :=
  match n with
  | O => ret ls
  | S n' => ls' <- loop_body pflip_rules i ls ;;
            for_loop pflip_rules n' (i + 1) ls'
  end.

(** The part of [automaton_step] up to the end of the loop; it returns the
    local variables as the loop leaves them. *)
Definition automaton_step_loop (STATE_SIZE : Z) (pflip_rules : option (list bool))
    : M locals :=
  let left := {| pblock := 0; position := to_uint8_t (8 * sizeof_block_t - 1) |} in
  let center := {| pblock := 0; position := to_uint8_t (8 * sizeof_block_t - 2) |} in
  let right := {| pblock := 0; position := to_uint8_t (8 * sizeof_block_t - 3) |} in
  (* the first cell will stay the same *)
  prev <- get_bit (Some left) ;;
  for_loop pflip_rules (Z.to_nat (STATE_SIZE + 1 - 3)) 3
    {| left_view := left; center_view := center; right_view := right;
       prev_result := prev; curr_result := None |}.

(** [void automaton_step(block_t *state_array, const bool *pflip_rules)],
    as a computation on the machine whose memory is the array
    [state_array] points to. *)
Definition automaton_step_body (STATE_SIZE : Z) (pflip_rules : option (list bool))
    : M unit :=
  ls <- automaton_step_loop STATE_SIZE pflip_rules ;;
  (* set the STATE_SIZE - 1 cell (the last cell stays the same) *)
  match curr_result ls with
  | Some curr => conditional_bit_flip (Some (left_view ls)) curr
  | None => undefined
  end.

(** The call [automaton_step(state_array, pflip_rules)]: the array comes in
    by pointer ([None] is [NULL]) and its new contents come out. *)
Definition automaton_step (STATE_SIZE : Z) (state_array : option (list block_t))
    (pflip_rules : option (list bool)) : outcome (list block_t) :=
  match state_array with
  | None => AssertFailed
  | Some blocks =>
      match pflip_rules with
      | None => AssertFailed
      | Some _ =>
          match automaton_step_body STATE_SIZE pflip_rules (mk_machine blocks []) with
          | Done (_, m) => Done (mem m)
          | AssertFailed => AssertFailed
          | Undefined => Undefined
          end
      end
  end.

(** [static const bool RULE110[]] *)
Definition RULE110 : list bool :=
  [ false;  (* <- 000 *)
    true;   (* <- 001 *)
    false;  (* <- 010 *)
    false;  (* <- 011 *)
    false;  (* <- 100 *)
    true;   (* <- 101 *)
    false;  (* <- 110 *)
    true    (* <- 111 *) ].

(** The seed of [main]: [block_t automaton_state[ARRAY_SIZE] = {0, 1, 2};] *)
Definition automaton_state_main : list block_t := [0; 1; 2].

(** The state after [n] rounds of the loop in [main], printing left aside. *)
Fixpoint run_generations (STATE_SIZE : Z) (n : nat) (state : list block_t)
    : outcome (list block_t) :=
  match n with
  | O => Done state
  | S n' =>
      match automaton_step STATE_SIZE (Some state) (Some RULE110) with
      | Done state' => run_generations STATE_SIZE n' state'
      | AssertFailed => AssertFailed
      | Undefined => Undefined
      end
  end.

(** ** The row as cells *)

(** The view of cell [k]: block [k / BLOCK_SIZE], bit [BLOCK_SIZE - 1 - k % BLOCK_SIZE]
    (cells are stored in a block in reverse order, first cell in the top bit). *)
Definition view_of (k : Z) : bit_view_t :=
  {| pblock := k / 8; position := 7 - k mod 8 |}.

(** The value of cell [k] of a block list. *)
Definition cell (blocks : list block_t) (k : Z) : bool :=
  Z.testbit (nth (Z.to_nat (k / 8)) blocks 0) (7 - k mod 8).

(** The first [n] cells, as a list of booleans. *)
Definition cells (n : Z) (blocks : list block_t) : list bool :=
  map (fun k => cell blocks (Z.of_nat k)) (seq 0 (Z.to_nat n)).

(** The block list with cell [k] toggled. *)
Definition flip_cell (blocks : list block_t) (k : Z) : list block_t :=
  <[Z.to_nat (k / 8) :=
      to_block_t (Z.lxor (nth (Z.to_nat (k / 8)) blocks 0) (Z.shiftl 1 (7 - k mod 8)))]>
    blocks.

Definition cond_flip (blocks : list block_t) (k : Z) (b : bool) : list block_t :=
  if b then flip_cell blocks k else blocks.

(** The entry of a rule table for the neighbourhood [(l, c, r)], code
    [l*4 + c*2 + r]. *)
Definition code (l c r : bool) : Z := Z.b2z l * 4 + Z.b2z c * 2 + Z.b2z r.
Definition rule_at (rules : list bool) (l c r : bool) : bool :=
  nth (Z.to_nat (code l c r)) rules false.

(** The flag written to cell [k] by the step started in state [s0]: for
    cell 0 the value of cell 0 itself (the initial [prev_result]), for the
    others the table entry of the neighbourhood of [k] in [s0]. *)
Definition pending (rules : list bool) (s0 : list block_t) (k : Z) : bool :=
  if k =? 0 then cell s0 0
  else rule_at rules (cell s0 (k - 1)) (cell s0 k) (cell s0 (k + 1)).

(** The memory once the pending writes of cells [0 .. j-1] are done. *)
Fixpoint after (rules : list bool) (s0 : list block_t) (j : nat) : list block_t :=
  match j with
  | O => s0
  | S j' => cond_flip (after rules s0 j') (Z.of_nat j') (pending rules s0 (Z.of_nat j'))
  end.

(** The events of the pass of the loop whose window starts at cell [j]. *)
Definition body_events (rules : list bool) (s0 : list block_t) (j : Z) : list event :=
  [Read (view_of j) (cell s0 j);
   Read (view_of (j + 1)) (cell s0 (j + 1));
   Read (view_of (j + 2)) (cell s0 (j + 2))]
  ++ (if pending rules s0 j then [Flip (view_of j)] else []).

(** The log after [j] passes of the loop. *)
Fixpoint events_upto (rules : list bool) (s0 : list block_t) (j : nat) : list event :=
  match j with
  | O => [Read (view_of 0) (cell s0 0)]
  | S j' => events_upto rules s0 j' ++ body_events rules s0 (Z.of_nat j')
  end.

(** The local variables after [j] passes of the loop. *)
Definition locals_at (rules : list bool) (s0 : list block_t) (j : nat) : locals :=
  {| left_view := view_of (Z.of_nat j);
     center_view := view_of (Z.of_nat j + 1);
     right_view := view_of (Z.of_nat j + 2);
     prev_result := pending rules s0 (Z.of_nat j);
     curr_result := match j with O => None | S _ => Some (pending rules s0 (Z.of_nat j)) end |}.

(** The log of a whole call: the passes of the loop, then the last write. *)
Definition step_events (STATE_SIZE : Z) (rules : list bool) (s0 : list block_t)
    : list event :=
  events_upto rules s0 (Z.to_nat (STATE_SIZE - 2))
  ++ (if pending rules s0 (STATE_SIZE - 2) then [Flip (view_of (STATE_SIZE - 2))] else []).

(** In a well-ordered log no view is read once it has been written. *)
Fixpoint reads_before_writes (t : list event) : Prop :=
  match t with
  | [] => True
  | Read _ _ :: t' => reads_before_writes t'
  | Flip v :: t' => (forall b, ~ In (Read v b) t') /\ reads_before_writes t'
  end.

(** ** Printing *)

(** Results of the functions that print: no machine is threaded, the text
    written to standard output is the value. *)
Definition obind {A B} (o : outcome A) (k : A -> outcome B) : outcome B :=
  match o with
  | Done a => k a
  | AssertFailed => AssertFailed
  | Undefined => Undefined
  end.

Definition space : ascii := " "%char.
Definition newline : ascii := ascii_of_nat 10.

(** [cond ? '#' : ' '] *)
Definition glyph (alive : bool) : ascii := if alive then "#"%char else space.

(** The [while (mask > end_mask)] loop of [print_block]: each pass prints
    the glyph of the bit under [mask] and a space, then shifts [mask] right.
    [fuel] bounds the number of passes; [None] means it ran out. *)
Fixpoint print_block_loop (fuel : nat) (block mask end_mask : Z) : option (list ascii) :=
  if mask >? end_mask then
    match fuel with
    | O => None
    | S fuel' =>
        match print_block_loop fuel' block (to_block_t (Z.shiftr mask 1)) end_mask with
        | Some out => Some (glyph (negb (Z.land block mask =? 0)) :: space :: out)
        | None => None
        end
    end
  else Some [].

(** [static void print_block(block_t block, uint8_t bits)].  The shift
    count [BLOCK_SIZE - bits] is computed in [size_t]. *)
Definition print_block (block : block_t) (bits : Z) : outcome (list ascii) :=
  if bits >? 0 then
    let mask := to_block_t (Z.shiftl 1 (8 * sizeof_block_t - 1)) in
    let count := (8 * sizeof_block_t - bits) mod 2 ^ 64 in
    if count <? 31 then
      let end_mask := to_block_t (Z.shiftl 1 count) in
      match print_block_loop (Z.to_nat BLOCK_SIZE) block mask end_mask with
      | Some out => Done (out ++ [glyph (negb (Z.land block end_mask =? 0))])
      | None => Undefined
      end
    else Undefined
  else AssertFailed.

(** Modelled from the spec: [print_as_characters], the function
    [pretty_print] calls for each block, has no definition in main.c.  The
    spec's Render emits each cell as [#] or a space, separated by single
    spaces, and of the last block only the declared cells; the function of
    main.c with this argument list that does so for one block is
    [print_block], which is taken as its body. *)
Definition print_as_characters (block : block_t) (bits : Z) : outcome (list ascii) :=
  print_block block bits.

(** [state_array[i]] *)
Definition read_block (state_array : list block_t) (i : Z) : outcome block_t :=
  if i <? 0 then Undefined
  else match state_array !! Z.to_nat i with
       | Some b => Done b
       | None => Undefined
       end.

(** The [for] loop of [pretty_print]; [n] is the number of passes left. *)
Fixpoint pretty_print_loop (state_array : list block_t) (n : nat) (i : Z)
    : outcome (list ascii) :=
  match n with
  | O => Done []
  | S n' =>
      obind (read_block state_array i) (fun b =>
      obind (print_as_characters b (to_uint8_t (8 * sizeof_block_t))) (fun out =>
      obind (pretty_print_loop state_array n' (i + 1)) (fun rest =>
      Done (out ++ [space] ++ rest))))
  end.

(** [static void pretty_print(const block_t *state_array)].  The loop bound
    [ARRAY_SIZE - 1] and the index [ARRAY_SIZE - 1] are [size_t] values. *)
Definition pretty_print (STATE_SIZE : Z) (state_array : option (list block_t))
    : outcome (list ascii) :=
  match state_array with
  | None => AssertFailed
  | Some blocks =>
      let last := (ARRAY_SIZE STATE_SIZE - 1) mod 2 ^ 64 in
      obind (pretty_print_loop blocks (Z.to_nat last) 0) (fun out =>
      let remaining_bits :=
        if (STATE_SIZE mod 8) * sizeof_block_t =? 0 then 8 * sizeof_block_t
        else (STATE_SIZE mod 8) * sizeof_block_t in
      obind (read_block blocks last) (fun b =>
      obind (print_as_characters b (to_uint8_t remaining_bits)) (fun out_last =>
      Done (out ++ out_last ++ [newline]))))
  end.

(** [main], for [generations] rounds of its loop (100 in the source): the
    text printed. *)
Fixpoint main_loop (generations : nat) (automaton_state : list block_t)
    : outcome (list ascii) :=
  match generations with
  | O => Done []
  | S g =>
      obind (automaton_step STATE_SIZE_main (Some automaton_state) (Some RULE110))
        (fun state' =>
      obind (pretty_print STATE_SIZE_main (Some state')) (fun out =>
      obind (main_loop g state') (fun rest =>
      Done (out ++ rest))))
  end.

Definition main : outcome (list ascii) :=
  obind (pretty_print STATE_SIZE_main (Some automaton_state_main)) (fun out =>
  obind (main_loop 100 automaton_state_main) (fun rest =>
  Done (out ++ rest))).

(** The specification's Render, for comparison with [pretty_print]: a row
    of cells as text, the character [#] for a cell that is alive and a
    blank for one that is dead, one blank between neighbours.  The
    characters are written out here and shared with nothing on the side of
    the code. *)
Fixpoint line_of (cs : list bool) : list ascii :=
  match cs with
  | [] => []
  | [c] => [if c then "#"%char else " "%char]
  | c :: cs' => (if c then "#"%char else " "%char) :: " "%char :: line_of cs'
  end.

(** The text of a run of cells each followed by a space. *)
Definition spaced (cs : list bool) : list ascii :=
  flat_map (fun c => [glyph c; space]) cs.

(** The cells [start .. start + len - 1]. *)
Definition cells_from (blocks : list block_t) (start len : nat) : list bool :=
  map (fun k => cell blocks (Z.of_nat k)) (seq start len).

(** ** The reference of the specification *)

(** The rule table of rule 110 as the specification describes a rule
    table: the entry for the neighbourhood code [c] is the next value of
    the centre cell, which for rule number 110 is bit [c] of 110. *)
Definition rule110_result (c : Z) : bool := Z.testbit 110 c.

(** The specification's double-buffered reference: the next generation is
    built in a fresh buffer from the values before the step; the first and
    the last cell are copied, every other cell gets the table's result for
    its neighbourhood. *)
Definition naive_step (table : Z -> bool) (old : list bool) : list bool :=
  map (fun k =>
         if (k =? 0)%nat || (k =? length old - 1)%nat then nth k old false
         else table (code (nth (k - 1) old false) (nth k old false) (nth (k + 1) old false)))
      (seq 0 (length old)).

Fixpoint naive_run (table : Z -> bool) (generations : nat) (old : list bool)
    : list bool :=
  match generations with
  | O => old
  | S g => naive_run table g (naive_step table old)
  end.

(** A state array of the size the program declares for [STATE_SIZE] cells. *)
Definition well_sized (STATE_SIZE : Z) (state : list block_t) : Prop :=
  Z.of_nat (length state) = ARRAY_SIZE STATE_SIZE.

(** The one-block state holding the three-cell window [(l, c, r)] in its
    top three bits. *)
Definition window (l c r : bool) : list block_t :=
  [Z.b2z l * 128 + Z.b2z c * 64 + Z.b2z r * 32].

(** The cells alive among the first [n]. *)
Definition alive_cells (n : Z) (state : list block_t) : list nat :=
  List.filter (fun k => cell state (Z.of_nat k)) (seq 0 (Z.to_nat n)).

(** ** Measures of a state and of a log *)

(** Every block holds a value of [block_t], an unsigned 8-bit number. *)
Definition all_block_t (blocks : list block_t) : bool :=
  forallb (fun b => (0 <=? b) && (b <? 2 ^ (8 * sizeof_block_t))) blocks.

Definition is_read (e : event) : bool :=
  match e with Read _ _ => true | Flip _ => false end.

(** The number of reads and of writes in a log. *)
Definition count_reads (t : list event) : nat := length (List.filter is_read t).
Definition count_flips (t : list event) : nat :=
  length (List.filter (fun e => negb (is_read e)) t).

(** The glyphs a line is made of. *)
Definition is_glyph_or_space (c : ascii) : bool :=
  Ascii.eqb c "#"%char || Ascii.eqb c space.

(** * Proofs *)

(** ** The model run on the program's seed *)

Example first_generation :
  automaton_step STATE_SIZE_main (Some automaton_state_main) (Some RULE110)
  = Done [0; 3; 6].
Proof. vm_compute. reflexivity. Qed.

Example fifth_generation :
  run_generations STATE_SIZE_main 5 automaton_state_main = Done [0; 49; 98].
Proof. vm_compute. reflexivity. Qed.

Section PrintedText.

Import String.

Example print_block_four_cells :
  print_block 176 4 = Done (list_ascii_of_string "#   # #"%string).
Proof. vm_compute. reflexivity. Qed.

Example seed_line :
  pretty_print STATE_SIZE_main (Some automaton_state_main)
  = Done (list_ascii_of_string
            "                              #             #  "%string
          ++ [newline]).
Proof. vm_compute. reflexivity. Qed.

End PrintedText.

Example main_prints_101_lines :
  obind main (fun out => Done (length (List.filter (Ascii.eqb newline) out)))
  = Done 101%nat.
Proof. vm_compute. reflexivity. Qed.

(** Side conditions: arithmetic, or the size of a concrete rule table. *)
Ltac side := first [lia | assumption | cbn; lia].

(** ** Bit-level facts *)

Lemma get_bit_expr (b p : Z) :
  0 <= p -> negb (Z.land (Z.shiftr b p) 1 =? 0) = Z.testbit b p.
Proof.
  intros Hp.
  change 1 with (Z.ones 1) at 1.
  rewrite Z.land_ones by lia.
  change (2 ^ 1) with 2.
  rewrite Zmod_odd, <- Z.bit0_odd, Z.shiftr_spec by lia.
  rewrite Z.add_0_l.
  destruct (Z.testbit b p); reflexivity.
Qed.

Lemma testbit_one (d : Z) : Z.testbit 1 d = (d =? 0).
Proof.
  destruct d as [|d|d]; try reflexivity.
  all: destruct d; reflexivity.
Qed.

Lemma testbit_flip (b p q : Z) :
  0 <= p < 8 -> 0 <= q < 8 ->
  Z.testbit (to_block_t (Z.lxor b (Z.shiftl 1 p))) q = xorb (Z.testbit b q) (p =? q).
Proof.
  intros Hp Hq. unfold to_block_t, sizeof_block_t.
  rewrite Z.mod_pow2_bits_low by lia.
  rewrite Z.lxor_spec, Z.shiftl_spec, testbit_one by lia.
  f_equal. destruct (Z.eqb_spec (q - p) 0), (Z.eqb_spec p q); try reflexivity; lia.
Qed.

Lemma view_of_position_range (k : Z) : 0 <= position (view_of k) < 8.
Proof. cbn. pose proof (Z.mod_pos_bound k 8). lia. Qed.

Lemma view_of_inj (j k : Z) : view_of j = view_of k -> j = k.
Proof.
  unfold view_of. intros H. injection H as Hb Hp.
  rewrite (Z.div_mod j 8), (Z.div_mod k 8) by lia. lia.
Qed.

(** The view the loop computes for the counter value [i] is the view of
    cell [i]. *)
Lemma right_view_update (i : Z) :
  {| pblock := i / 8 * sizeof_block_t;
     position := to_uint8_t (8 * sizeof_block_t - 1 - (i mod 8) * sizeof_block_t) |}
  = view_of i.
Proof.
  unfold view_of, sizeof_block_t, to_uint8_t.
  pose proof (Z.mod_pos_bound i 8).
  f_equal; [lia | rewrite Z.mod_small; lia].
Qed.

(** ** Cells under a flip *)

Lemma length_flip_cell (blocks : list block_t) (k : Z) :
  length (flip_cell blocks k) = length blocks.
Proof. unfold flip_cell. apply length_insert. Qed.

Lemma length_cond_flip (blocks : list block_t) (k : Z) (b : bool) :
  length (cond_flip blocks k b) = length blocks.
Proof. destruct b; [apply length_flip_cell | reflexivity]. Qed.

Lemma cell_flip_cell (blocks : list block_t) (k k' : Z) :
  0 <= k < 8 * Z.of_nat (length blocks) -> 0 <= k' ->
  cell (flip_cell blocks k) k' = xorb (cell blocks k') (k =? k').
Proof.
  intros Hk Hk'. unfold cell, flip_cell.
  pose proof (Z.mod_pos_bound k 8). pose proof (Z.mod_pos_bound k' 8).
  assert (Hlt : (Z.to_nat (k / 8) < length blocks)%nat).
  { apply Nat2Z.inj_lt. rewrite Z2Nat.id by (apply Z.div_pos; lia).
    apply Z.div_lt_upper_bound; lia. }
  destruct (Z.eq_dec (k / 8) (k' / 8)) as [E | E].
  - rewrite <- E.
    rewrite !nth_lookup, list_lookup_insert_eq by exact Hlt.
    cbn [default from_option]. unfold id at 1.
    rewrite testbit_flip by lia.
    f_equal.
    destruct (Z.eqb_spec (7 - k mod 8) (7 - k' mod 8)), (Z.eqb_spec k k');
      try reflexivity.
    + exfalso. apply n. rewrite (Z.div_mod k 8), (Z.div_mod k' 8) by lia. lia.
    + subst. lia.
  - rewrite !nth_lookup, list_lookup_insert_ne.
    + destruct (Z.eqb_spec k k'); [subst; congruence | rewrite xorb_false_r; reflexivity].
    + intros C. apply E. apply Z2Nat.inj in C; try (apply Z.div_pos; lia). exact C.
Qed.

Lemma cell_cond_flip (blocks : list block_t) (k k' : Z) (b : bool) :
  0 <= k < 8 * Z.of_nat (length blocks) -> 0 <= k' ->
  cell (cond_flip blocks k b) k' = xorb (cell blocks k') (b && (k =? k')).
Proof.
  intros Hk Hk'. destruct b; cbn.
  - apply cell_flip_cell; assumption.
  - rewrite xorb_false_r. reflexivity.
Qed.

Lemma length_after (rules : list bool) (s0 : list block_t) (j : nat) :
  length (after rules s0 j) = length s0.
Proof.
  induction j as [|j IH]; cbn; [reflexivity |].
  rewrite length_cond_flip. exact IH.
Qed.

(** After the writes of cells [0 .. j-1], those cells hold their old value
    XOR their flag, and every other cell still holds its old value. *)
Lemma cell_after (rules : list bool) (s0 : list block_t) (j : nat) (k : Z) :
  Z.of_nat j <= 8 * Z.of_nat (length s0) -> 0 <= k ->
  cell (after rules s0 j) k
  = if k <? Z.of_nat j then xorb (cell s0 k) (pending rules s0 k) else cell s0 k.
Proof.
  intros Hj Hk. induction j as [|j IH].
  - cbn [after]. destruct (Z.ltb_spec k (Z.of_nat 0)); [lia | reflexivity].
  - cbn [after]. rewrite cell_cond_flip by (rewrite ?length_after; lia).
    rewrite IH by lia.
    destruct (Z.eqb_spec (Z.of_nat j) k) as [Heq | Hne];
      destruct (Z.ltb_spec k (Z.of_nat j)), (Z.ltb_spec k (Z.of_nat (S j)));
      try lia;
      rewrite ?andb_true_r, ?andb_false_r, ?xorb_false_r, ?Heq; reflexivity.
Qed.

(** ** Running the accessors on the view of a cell *)

Lemma bind_Done {A B} (c : M A) (k : A -> M B) (m m' : machine) (a : A) :
  c m = Done (a, m') -> bind c k m = k a m'.
Proof. intros H. unfold bind. rewrite H. reflexivity. Qed.

Lemma block_index_ok (blocks : list block_t) (k : Z) :
  0 <= k < 8 * Z.of_nat (length blocks) ->
  (k / 8 <? 0) = false
  /\ blocks !! Z.to_nat (k / 8) = Some (nth (Z.to_nat (k / 8)) blocks 0).
Proof.
  intros Hk. split.
  - apply Z.ltb_ge. apply Z.div_pos; lia.
  - assert (Hlt : (Z.to_nat (k / 8) < length blocks)%nat).
    { apply Nat2Z.inj_lt. rewrite Z2Nat.id by (apply Z.div_pos; lia).
      apply Z.div_lt_upper_bound; lia. }
    destruct (lookup_lt_is_Some_2 blocks _ Hlt) as [b Hb].
    rewrite Hb. f_equal. symmetry. apply nth_lookup_Some. exact Hb.
Qed.

Lemma get_bit_view (k : Z) (m : machine) :
  0 <= k < 8 * Z.of_nat (length (mem m)) ->
  get_bit (Some (view_of k)) m
  = Done (cell (mem m) k,
          mk_machine (mem m) (log m ++ [Read (view_of k) (cell (mem m) k)])).
Proof.
  intros Hk. destruct (block_index_ok _ _ Hk) as [Hneg Hlook].
  pose proof (view_of_position_range k) as Hpos. cbn in Hpos.
  unfold get_bit, assert_not_null, bind, load_block, shr_int, emit, ret.
  cbn [pblock position view_of].
  rewrite Hneg, Hlook.
  destruct (Z.leb_spec 0 (7 - k mod 8)); [| lia].
  destruct (Z.ltb_spec (7 - k mod 8) 32); [| lia].
  cbn [andb mem log]. rewrite get_bit_expr by lia. reflexivity.
Qed.

Lemma bit_flip_view (k : Z) (m : machine) :
  0 <= k < 8 * Z.of_nat (length (mem m)) ->
  bit_flip (Some (view_of k)) m
  = Done (tt, mk_machine (flip_cell (mem m) k) (log m ++ [Flip (view_of k)])).
Proof.
  intros Hk. destruct (block_index_ok _ _ Hk) as [Hneg Hlook].
  pose proof (view_of_position_range k) as Hpos. cbn in Hpos.
  unfold bit_flip, assert_not_null, bind, load_block, store_block, shl_int_1, emit, ret.
  cbn [pblock position view_of].
  rewrite Hneg, Hlook.
  destruct (Z.leb_spec 0 (7 - k mod 8)); [| lia].
  destruct (Z.ltb_spec (7 - k mod 8) 31); [| lia].
  cbn [andb mem log]. rewrite ?Hneg, ?Hlook. reflexivity.
Qed.

Lemma conditional_bit_flip_view (k : Z) (flip : bool) (m : machine) :
  0 <= k < 8 * Z.of_nat (length (mem m)) ->
  conditional_bit_flip (Some (view_of k)) flip m
  = Done (tt, mk_machine (cond_flip (mem m) k flip)
                         (log m ++ (if flip then [Flip (view_of k)] else []))).
Proof.
  intros Hk. unfold conditional_bit_flip, assert_not_null.
  destruct flip; cbn [cond_flip].
  - apply bit_flip_view. exact Hk.
  - unfold ret. rewrite app_nil_r. destruct m; reflexivity.
Qed.

Lemma code_shift (l c r : bool) :
  Z.shiftl (Z.b2z l) 2 + Z.shiftl (Z.b2z c) 1 + Z.b2z r = code l c r.
Proof. destruct l, c, r; reflexivity. Qed.

Lemma code_range (l c r : bool) : 0 <= code l c r < 8.
Proof. destruct l, c, r; cbv; split; congruence. Qed.

Lemma evaluate_views (rules : list bool) (k : Z) (m : machine) :
  (8 <= length rules)%nat ->
  0 <= k -> k + 2 < 8 * Z.of_nat (length (mem m)) ->
  evaluate (Some (view_of k)) (Some (view_of (k + 1))) (Some (view_of (k + 2)))
           (Some rules) m
  = Done (rule_at rules (cell (mem m) k) (cell (mem m) (k + 1)) (cell (mem m) (k + 2)),
          mk_machine (mem m)
            (log m ++ [Read (view_of k) (cell (mem m) k);
                       Read (view_of (k + 1)) (cell (mem m) (k + 1));
                       Read (view_of (k + 2)) (cell (mem m) (k + 2))])).
Proof.
  intros Hr Hk Hk2. unfold evaluate, assert_not_null.
  do 3 (erewrite bind_Done by (apply get_bit_view; cbn [mem]; lia)).
  cbn [mem log]. rewrite code_shift.
  pose proof (code_range (cell (mem m) k) (cell (mem m) (k + 1)) (cell (mem m) (k + 2))) as Hc.
  unfold rule_at.
  destruct (lookup_lt_is_Some_2 rules
              (Z.to_nat (code (cell (mem m) k) (cell (mem m) (k + 1)) (cell (mem m) (k + 2)))))
    as [res Hres]; [lia |].
  rewrite Hres, (nth_lookup_Some _ _ _ _ Hres).
  unfold ret. rewrite <- !app_assoc. reflexivity.
Qed.

(** ** The loop invariant *)

Section StepInvariant.

Variable rules : list bool.
Variable s0 : list block_t.
Hypothesis rules_size : (8 <= length rules)%nat.

Lemma pending_succ (k : Z) :
  0 <= k ->
  pending rules s0 (k + 1)
  = rule_at rules (cell s0 k) (cell s0 (k + 1)) (cell s0 (k + 2)).
Proof.
  intros Hk. unfold pending.
  destruct (Z.eqb_spec (k + 1) 0); [lia |].
  replace (k + 1 - 1) with k by lia.
  replace (k + 1 + 1) with (k + 2) by lia.
  reflexivity.
Qed.

(** One pass of the loop takes the [j]-th loop state to the next: the
    neighbourhood is read from cells that still hold their pre-step values,
    and the write goes to the left cell of the window. *)
Lemma loop_body_spec (j : nat) :
  Z.of_nat j + 2 < 8 * Z.of_nat (length s0) ->
  loop_body (Some rules) (Z.of_nat j + 3) (locals_at rules s0 j)
            (mk_machine (after rules s0 j) (events_upto rules s0 j))
  = Done (locals_at rules s0 (S j),
          mk_machine (after rules s0 (S j)) (events_upto rules s0 (S j))).
Proof.
  intros Hj. unfold loop_body.
  cbn [locals_at left_view center_view right_view prev_result].
  erewrite bind_Done
    by (apply evaluate_views; cbn [mem]; rewrite ?length_after; [exact rules_size | lia | lia]).
  cbn [mem log].
  rewrite !cell_after by lia.
  destruct (Z.ltb_spec (Z.of_nat j) (Z.of_nat j)); [lia |].
  destruct (Z.ltb_spec (Z.of_nat j + 1) (Z.of_nat j)); [lia |].
  destruct (Z.ltb_spec (Z.of_nat j + 2) (Z.of_nat j)); [lia |].
  erewrite bind_Done
    by (apply conditional_bit_flip_view; cbn [mem]; rewrite ?length_after; lia).
  cbn [mem log]. unfold ret.
  rewrite right_view_update, <- pending_succ by lia.
  cbn [after events_upto]. unfold locals_at, body_events.
  rewrite Nat2Z.inj_succ.
  replace (Z.succ (Z.of_nat j) + 2) with (Z.of_nat j + 3) by lia.
  replace (Z.succ (Z.of_nat j) + 1) with (Z.of_nat j + 2) by lia.
  replace (Z.succ (Z.of_nat j)) with (Z.of_nat j + 1) by lia.
  rewrite <- !app_assoc. reflexivity.
Qed.

Lemma for_loop_spec (n j : nat) :
  Z.of_nat (j + n) + 1 < 8 * Z.of_nat (length s0) ->
  for_loop (Some rules) n (Z.of_nat j + 3) (locals_at rules s0 j)
           (mk_machine (after rules s0 j) (events_upto rules s0 j))
  = Done (locals_at rules s0 (j + n),
          mk_machine (after rules s0 (j + n)) (events_upto rules s0 (j + n))).
Proof.
  revert j. induction n as [|n IH]; intros j Hb.
  - cbn [for_loop]. unfold ret. rewrite Nat.add_0_r. reflexivity.
  - cbn [for_loop].
    erewrite bind_Done by (apply loop_body_spec; lia).
    replace (Z.of_nat j + 3 + 1) with (Z.of_nat (S j) + 3) by lia.
    rewrite IH by lia.
    replace (S j + n)%nat with (j + S n)%nat by lia.
    reflexivity.
Qed.

End StepInvariant.

(** ** What one call of [automaton_step] does *)

Section StepSpec.

Variable STATE_SIZE : Z.
Variable rules : list bool.
Variable s0 : list block_t.
Hypothesis state_size_min : 3 <= STATE_SIZE.
Hypothesis rules_size : (8 <= length rules)%nat.
Hypothesis array_size : STATE_SIZE <= 8 * Z.of_nat (length s0).

Lemma automaton_step_loop_spec :
  automaton_step_loop STATE_SIZE (Some rules) (mk_machine s0 [])
  = Done (locals_at rules s0 (Z.to_nat (STATE_SIZE - 2)),
          mk_machine (after rules s0 (Z.to_nat (STATE_SIZE - 2)))
                     (events_upto rules s0 (Z.to_nat (STATE_SIZE - 2)))).
Proof.
  unfold automaton_step_loop.
  change {| pblock := 0; position := to_uint8_t (8 * sizeof_block_t - 1) |}
    with (view_of 0).
  erewrite bind_Done by (apply get_bit_view; cbn [mem]; lia).
  cbn [mem log app].
  replace (Z.to_nat (STATE_SIZE + 1 - 3)) with (Z.to_nat (STATE_SIZE - 2)) by lia.
  apply (for_loop_spec rules s0 rules_size (Z.to_nat (STATE_SIZE - 2)) 0).
  lia.
Qed.

Lemma automaton_step_body_spec :
  automaton_step_body STATE_SIZE (Some rules) (mk_machine s0 [])
  = Done (tt, mk_machine (after rules s0 (Z.to_nat (STATE_SIZE - 1)))
                         (step_events STATE_SIZE rules s0)).
Proof.
  unfold automaton_step_body.
  erewrite bind_Done by (apply automaton_step_loop_spec).
  destruct (Z.to_nat (STATE_SIZE - 2)) as [|j] eqn:Ej; [lia |].
  cbn [locals_at curr_result left_view].
  rewrite conditional_bit_flip_view by (cbn [mem]; rewrite length_after; lia).
  cbn [mem log]. unfold step_events. rewrite Ej.
  replace (Z.to_nat (STATE_SIZE - 1)) with (S (S j)) by lia.
  replace (STATE_SIZE - 2) with (Z.of_nat (S j)) by lia.
  reflexivity.
Qed.

Lemma automaton_step_spec :
  automaton_step STATE_SIZE (Some s0) (Some rules)
  = Done (after rules s0 (Z.to_nat (STATE_SIZE - 1))).
Proof.
  unfold automaton_step. rewrite automaton_step_body_spec. reflexivity.
Qed.

(** Cell by cell: cells [0 .. STATE_SIZE-2] are XOR-ed with their flag, the
    cells from [STATE_SIZE-1] on (the last cell and any padding bits) are
    left as they were. *)
Lemma cell_after_step (k : Z) :
  0 <= k ->
  cell (after rules s0 (Z.to_nat (STATE_SIZE - 1))) k
  = if k <? STATE_SIZE - 1 then xorb (cell s0 k) (pending rules s0 k) else cell s0 k.
Proof.
  intros Hk. rewrite cell_after by lia.
  rewrite Z2Nat.id by lia. reflexivity.
Qed.

End StepSpec.

(** ** The log of a step *)

Lemma reads_before_writes_app (t u : list event) :
  reads_before_writes t -> reads_before_writes u ->
  (forall v b, In (Flip v) t -> ~ In (Read v b) u) ->
  reads_before_writes (t ++ u).
Proof.
  induction t as [|e t IH]; intros Ht Hu Hx; [exact Hu |].
  destruct e as [v b | v]; cbn in *.
  - apply IH; [exact Ht | exact Hu |]. intros w c Hw. apply Hx. right. exact Hw.
  - destruct Ht as [Hv Ht]. split.
    + intros b Hin. apply in_app_or in Hin. destruct Hin as [Hin | Hin].
      * exact (Hv b Hin).
      * exact (Hx v b (or_introl eq_refl) Hin).
    + apply IH; [exact Ht | exact Hu |]. intros w c Hw. apply Hx. right. exact Hw.
Qed.

Lemma reads_before_writes_split (t t1 t2 : list event) (v : bit_view_t) (b : bool) :
  reads_before_writes t -> t = t1 ++ Flip v :: t2 -> ~ In (Read v b) t2.
Proof.
  intros Ht ->. induction t1 as [|e t1 IH].
  - cbn in Ht. apply Ht.
  - apply IH. destruct e; cbn in Ht; tauto.
Qed.

Section StepLog.

Variable rules : list bool.
Variable s0 : list block_t.

Lemma in_body_events (j : Z) (e : event) :
  In e (body_events rules s0 j) ->
  (exists k, j <= k <= j + 2 /\ e = Read (view_of k) (cell s0 k))
  \/ (pending rules s0 j = true /\ e = Flip (view_of j)).
Proof.
  unfold body_events. intros H. apply in_app_or in H. destruct H as [H | H].
  - left. cbn in H. destruct H as [<- | [<- | [<- | []]]].
    + exists j. split; [lia | reflexivity].
    + exists (j + 1). split; [lia | reflexivity].
    + exists (j + 2). split; [lia | reflexivity].
  - right. destruct (pending rules s0 j); cbn in H; [| tauto].
    destruct H as [<- | []]. split; reflexivity.
Qed.

(** Every event of the first [j] passes is a read of a cell below [j + 2],
    returning the value the cell had before the step, or the write of a
    cell below [j] whose flag is set. *)
Lemma in_events_upto (j : nat) (e : event) :
  In e (events_upto rules s0 j) ->
  (exists k, 0 <= k <= Z.of_nat j + 1 /\ e = Read (view_of k) (cell s0 k))
  \/ (exists k, 0 <= k < Z.of_nat j /\ pending rules s0 k = true /\ e = Flip (view_of k)).
Proof.
  induction j as [|j IH]; cbn [events_upto]; intros H.
  - left. destruct H as [<- | []]. exists 0. split; [lia | reflexivity].
  - apply in_app_or in H. destruct H as [H | H].
    + destruct (IH H) as [[k [Hk ->]] | [k [Hk [Hp ->]]]].
      * left. exists k. split; [lia | reflexivity].
      * right. exists k. split; [lia | split; [exact Hp | reflexivity]].
    + destruct (in_body_events _ _ H) as [[k [Hk ->]] | [Hp ->]].
      * left. exists k. split; [lia | reflexivity].
      * right. exists (Z.of_nat j). split; [lia | split; [exact Hp | reflexivity]].
Qed.

Lemma flip_in_events_upto (j : nat) (k : Z) :
  0 <= k < Z.of_nat j -> pending rules s0 k = true ->
  In (Flip (view_of k)) (events_upto rules s0 j).
Proof.
  induction j as [|j IH]; intros Hk Hp; [lia |].
  cbn [events_upto]. apply in_or_app.
  destruct (Z.eq_dec k (Z.of_nat j)) as [-> | Hne].
  - right. unfold body_events. apply in_or_app. right. rewrite Hp. left. reflexivity.
  - left. apply IH; [lia | exact Hp].
Qed.

Lemma reads_before_writes_body (j : Z) :
  reads_before_writes (body_events rules s0 j).
Proof.
  unfold body_events. cbn. destruct (pending rules s0 j); cbn; tauto.
Qed.

Lemma reads_before_writes_upto (j : nat) :
  reads_before_writes (events_upto rules s0 j).
Proof.
  induction j as [|j IH]; cbn [events_upto]; [cbn; exact I |].
  apply reads_before_writes_app; [exact IH | apply reads_before_writes_body |].
  intros v b Hf Hr.
  destruct (in_events_upto _ _ Hf) as [[k [_ Hk]] | [k [Hk [_ Hv]]]]; [discriminate |].
  destruct (in_body_events _ _ Hr) as [[k' [Hk' Hv']] | [_ Hv']]; [| discriminate].
  assert (Hvw : view_of k = view_of k') by congruence.
  apply view_of_inj in Hvw. lia.
Qed.

Variable STATE_SIZE : Z.
Hypothesis state_size_min : 3 <= STATE_SIZE.

Lemma in_step_events (e : event) :
  In e (step_events STATE_SIZE rules s0) ->
  (exists k, 0 <= k < STATE_SIZE /\ e = Read (view_of k) (cell s0 k))
  \/ (exists k, 0 <= k < STATE_SIZE - 1 /\ pending rules s0 k = true
                /\ e = Flip (view_of k)).
Proof.
  unfold step_events. intros H. apply in_app_or in H. destruct H as [H | H].
  - destruct (in_events_upto _ _ H) as [[k [Hk ->]] | [k [Hk [Hp ->]]]].
    + left. exists k. split; [lia | reflexivity].
    + right. exists k. split; [lia | split; [exact Hp | reflexivity]].
  - right. exists (STATE_SIZE - 2).
    destruct (pending rules s0 (STATE_SIZE - 2)); cbn in H; [| tauto].
    destruct H as [<- | []]. split; [lia | split; reflexivity].
Qed.

Lemma flip_in_step_events (k : Z) :
  0 <= k < STATE_SIZE - 1 -> pending rules s0 k = true ->
  In (Flip (view_of k)) (step_events STATE_SIZE rules s0).
Proof.
  intros Hk Hp. unfold step_events. apply in_or_app.
  destruct (Z.eq_dec k (STATE_SIZE - 2)) as [-> | Hne].
  - right. rewrite Hp. left. reflexivity.
  - left. apply flip_in_events_upto; [lia | exact Hp].
Qed.

Lemma reads_before_writes_step :
  reads_before_writes (step_events STATE_SIZE rules s0).
Proof.
  unfold step_events.
  apply reads_before_writes_app; [apply reads_before_writes_upto | |].
  - destruct (pending rules s0 (STATE_SIZE - 2)); cbn; tauto.
  - intros v b _ Hr. destruct (pending rules s0 (STATE_SIZE - 2)); cbn in Hr; [| tauto].
    destruct Hr as [Hr | []]. discriminate.
Qed.

End StepLog.

(** ** Facts shared by the statements below *)

Lemma ARRAY_SIZE_covers (STATE_SIZE : Z) :
  0 <= STATE_SIZE -> STATE_SIZE <= 8 * ARRAY_SIZE STATE_SIZE.
Proof.
  intros H. unfold ARRAY_SIZE, sizeof_block_t.
  pose proof (Z.div_mod STATE_SIZE 8 ltac:(lia)).
  pose proof (Z.mod_pos_bound STATE_SIZE 8 ltac:(lia)).
  destruct (Z.eqb_spec (STATE_SIZE mod 8 * 1) 0); lia.
Qed.

Lemma well_sized_covers (STATE_SIZE : Z) (state : list block_t) :
  0 <= STATE_SIZE -> well_sized STATE_SIZE state ->
  STATE_SIZE <= 8 * Z.of_nat (length state).
Proof.
  unfold well_sized. intros H ->. apply ARRAY_SIZE_covers. exact H.
Qed.

Lemma after_length_well_sized (STATE_SIZE : Z) (rules : list bool)
    (state : list block_t) (j : nat) :
  well_sized STATE_SIZE state -> well_sized STATE_SIZE (after rules state j).
Proof. unfold well_sized. rewrite length_after. trivial. Qed.

(** XOR-ing the centre cell with its [RULE110] entry gives the rule-110
    result of the neighbourhood. *)
Lemma RULE110_flip_is_rule110 (l c r : bool) :
  xorb c (rule_at RULE110 l c r) = rule110_result (code l c r).
Proof. destruct l, c, r; reflexivity. Qed.

Lemma length_cells (n : Z) (blocks : list block_t) :
  length (cells n blocks) = Z.to_nat n.
Proof. unfold cells. rewrite length_map, length_seq. reflexivity. Qed.

Lemma nth_map_seq {A} (f : nat -> A) (n k : nat) (d : A) :
  (k < n)%nat -> nth k (map f (seq 0 n)) d = f k.
Proof.
  intros Hk.
  rewrite (nth_indep _ d (f 0%nat)) by (rewrite length_map, length_seq; exact Hk).
  rewrite (map_nth f), seq_nth by exact Hk. reflexivity.
Qed.

Lemma nth_cells (n : Z) (blocks : list block_t) (k : nat) :
  (k < Z.to_nat n)%nat -> nth k (cells n blocks) false = cell blocks (Z.of_nat k).
Proof.
  intros Hk. unfold cells.
  apply (nth_map_seq (fun k => cell blocks (Z.of_nat k))). exact Hk.
Qed.

(** A state with all of the first [STATE_SIZE] cells dead has no flag set. *)
Lemma pending_dead (STATE_SIZE : Z) (state : list block_t) (k : Z) :
  (forall i, 0 <= i < STATE_SIZE -> cell state i = false) ->
  0 <= k < STATE_SIZE - 1 -> pending RULE110 state k = false.
Proof.
  intros Hdead Hk. unfold pending.
  destruct (Z.eqb_spec k 0) as [-> | Hne].
  - apply Hdead. lia.
  - rewrite !Hdead by lia. reflexivity.
Qed.

Lemma after_no_flag (rules : list bool) (state : list block_t) (j : nat) :
  (forall k, 0 <= k < Z.of_nat j -> pending rules state k = false) ->
  after rules state j = state.
Proof.
  induction j as [|j IH]; intros H; cbn [after]; [reflexivity |].
  rewrite H by lia. cbn [cond_flip]. apply IH. intros k Hk. apply H. lia.
Qed.

(** The in-place step against the reference, cell by cell: the two agree
    on every cell but cell 0, which the in-place step leaves dead. *)
Lemma automaton_step_cells (STATE_SIZE : Z) (state : list block_t) :
  3 <= STATE_SIZE -> well_sized STATE_SIZE state ->
  exists state',
    automaton_step STATE_SIZE (Some state) (Some RULE110) = Done state'
    /\ well_sized STATE_SIZE state'
    /\ cell state' 0 = false
    /\ forall k, (0 < k < Z.to_nat STATE_SIZE)%nat ->
         nth k (cells STATE_SIZE state') false
         = nth k (naive_step rule110_result (cells STATE_SIZE state)) false.
Proof.
  intros HN Hws. pose proof (well_sized_covers STATE_SIZE state ltac:(lia) Hws) as Hcov.
  exists (after RULE110 state (Z.to_nat (STATE_SIZE - 1))).
  split; [apply automaton_step_spec; side |].
  split; [apply after_length_well_sized; exact Hws |].
  split.
  - rewrite cell_after_step by side.
    destruct (Z.ltb_spec 0 (STATE_SIZE - 1)); [| lia].
    unfold pending. cbn. apply xorb_nilpotent.
  - intros k Hk. rewrite nth_cells by lia.
    rewrite cell_after_step by side.
    unfold naive_step. rewrite length_cells.
    rewrite nth_map_seq by lia.
    destruct (Nat.eqb_spec k 0); [lia |]. cbn [orb].
    destruct (Nat.eqb_spec k (Z.to_nat STATE_SIZE - 1)) as [E | E].
    + destruct (Z.ltb_spec (Z.of_nat k) (STATE_SIZE - 1)); [lia |].
      rewrite nth_cells by lia. reflexivity.
    + destruct (Z.ltb_spec (Z.of_nat k) (STATE_SIZE - 1)); [| lia].
      rewrite !nth_cells by lia.
      unfold pending. destruct (Z.eqb_spec (Z.of_nat k) 0); [lia |].
      replace (Z.of_nat (k - 1)) with (Z.of_nat k - 1) by lia.
      replace (Z.of_nat (k + 1)) with (Z.of_nat k + 1) by lia.
      apply RULE110_flip_is_rule110.
Qed.

(** With cell 0 dead the in-place step computes the reference's next
    generation. *)
Lemma automaton_step_refines_naive_step (STATE_SIZE : Z) (state : list block_t) :
  3 <= STATE_SIZE -> well_sized STATE_SIZE state -> cell state 0 = false ->
  exists state',
    automaton_step STATE_SIZE (Some state) (Some RULE110) = Done state'
    /\ well_sized STATE_SIZE state'
    /\ cell state' 0 = false
    /\ cells STATE_SIZE state' = naive_step rule110_result (cells STATE_SIZE state).
Proof.
  intros HN Hws H0.
  destruct (automaton_step_cells STATE_SIZE state HN Hws) as [state' [Hrun [Hws' [H0' Hk]]]].
  exists state'. repeat split; try assumption.
  apply (nth_ext _ _ false false).
  - unfold naive_step. rewrite length_map, length_seq, !length_cells. reflexivity.
  - intros k Hlt. rewrite length_cells in Hlt.
    destruct k as [|k]; [| apply Hk; lia].
    rewrite nth_cells by lia. unfold naive_step. rewrite length_cells.
    rewrite nth_map_seq by lia. cbn [Nat.eqb orb].
    rewrite nth_cells by lia. change (Z.of_nat 0) with 0. congruence.
Qed.

Lemma run_generations_refines_naive_run (STATE_SIZE : Z) (n : nat) :
  3 <= STATE_SIZE ->
  forall state, well_sized STATE_SIZE state -> cell state 0 = false ->
  exists state',
    run_generations STATE_SIZE n state = Done state'
    /\ cells STATE_SIZE state' = naive_run rule110_result n (cells STATE_SIZE state).
Proof.
  intros HN. induction n as [|n IH]; intros state Hws H0.
  - exists state. split; reflexivity.
  - destruct (automaton_step_refines_naive_step _ _ HN Hws H0)
      as [state1 [Hrun [Hws1 [H01 Hcells]]]].
    destruct (IH state1 Hws1 H01) as [state' [Hrun' Hcells']].
    exists state'. cbn [run_generations naive_run]. rewrite Hrun.
    split; [exact Hrun' | rewrite Hcells', Hcells; reflexivity].
Qed.

(** The last cell is never written. *)
Lemma automaton_step_keeps_last_cell (STATE_SIZE : Z) (rules : list bool)
    (state : list block_t) :
  3 <= STATE_SIZE -> length rules = 8%nat -> well_sized STATE_SIZE state ->
  exists state',
    automaton_step STATE_SIZE (Some state) (Some rules) = Done state'
    /\ cell state' (STATE_SIZE - 1) = cell state (STATE_SIZE - 1).
Proof.
  intros HN Hr Hws.
  pose proof (well_sized_covers STATE_SIZE state ltac:(lia) Hws) as Hcov.
  exists (after rules state (Z.to_nat (STATE_SIZE - 1))).
  split; [apply automaton_step_spec; side |].
  rewrite cell_after_step by side.
  destruct (Z.ltb_spec (STATE_SIZE - 1) (STATE_SIZE - 1)); [lia | reflexivity].
Qed.

Lemma body_in_events_upto (rules : list bool) (s0 : list block_t) (j : nat) (k : Z) :
  0 <= k < Z.of_nat j ->
  exists t1 t2, events_upto rules s0 j = t1 ++ body_events rules s0 k ++ t2.
Proof.
  induction j as [|j IH]; intros Hk; [lia |].
  cbn [events_upto].
  destruct (Z.eq_dec k (Z.of_nat j)) as [-> | Hne].
  - exists (events_upto rules s0 j), []. rewrite app_nil_r. reflexivity.
  - destruct IH as [t1 [t2 E]]; [lia |].
    exists t1, (t2 ++ body_events rules s0 (Z.of_nat j)).
    rewrite E, <- !app_assoc. reflexivity.
Qed.

(** The views a call dereferences are views of cells of the row, so their
    blocks lie in the array and their positions in a block. *)
Lemma step_events_in_bounds (STATE_SIZE : Z) (rules : list bool) (state : list block_t)
    (e : event) :
  3 <= STATE_SIZE ->
  In e (step_events STATE_SIZE rules state) ->
  exists k, 0 <= k < STATE_SIZE /\ event_view e = view_of k.
Proof.
  intros HN Hin. apply in_step_events in Hin; try lia.
  destruct Hin as [[k [Hk ->]] | [k [Hk [_ ->]]]]; exists k; (split; [lia | reflexivity]).
Qed.

Lemma view_of_in_array (STATE_SIZE k : Z) :
  0 <= k < STATE_SIZE ->
  0 <= pblock (view_of k) < ARRAY_SIZE STATE_SIZE
  /\ 0 <= position (view_of k) < BLOCK_SIZE.
Proof.
  intros Hk. pose proof (ARRAY_SIZE_covers STATE_SIZE ltac:(lia)) as Hcov.
  split; [| apply view_of_position_range].
  cbn [pblock view_of]. split; [apply Z.div_pos; lia |].
  apply Z.div_lt_upper_bound; lia.
Qed.

(** ** What the printing functions write *)

Lemma spaced_app (xs ys : list bool) : spaced (xs ++ ys) = spaced xs ++ spaced ys.
Proof. unfold spaced. apply flat_map_app. Qed.

Lemma line_of_snoc (cs : list bool) (c : bool) :
  line_of (cs ++ [c]) = spaced cs ++ [glyph c].
Proof.
  induction cs as [|x cs IH]; [reflexivity |].
  cbn [app line_of]. rewrite IH.
  destruct (cs ++ [c]) eqn:E; [destruct cs; discriminate E | reflexivity].
Qed.

Lemma cells_from_app (blocks : list block_t) (start a b : nat) :
  cells_from blocks start (a + b)
  = cells_from blocks start a ++ cells_from blocks (start + a) b.
Proof. unfold cells_from. rewrite seq_app, map_app. reflexivity. Qed.

Lemma cells_cells_from (n : Z) (blocks : list block_t) :
  cells n blocks = cells_from blocks 0 (Z.to_nat n).
Proof. reflexivity. Qed.

(** The cells of block [i], read off the block's bits from the top. *)
Lemma cells_from_block (blocks : list block_t) (i q len : nat) :
  (q + len <= 8)%nat ->
  cells_from blocks (8 * i + q) len
  = map (fun t => Z.testbit (nth i blocks 0) (7 - Z.of_nat t)) (seq q len).
Proof.
  revert q. induction len as [|len IH]; intros q Hq; [reflexivity |].
  unfold cells_from in *. cbn [seq map]. f_equal.
  - unfold cell.
    replace (Z.of_nat (8 * i + q) / 8) with (Z.of_nat i)
      by (apply (Z.div_unique_pos _ 8 _ (Z.of_nat q)); lia).
    replace (Z.of_nat (8 * i + q) mod 8) with (Z.of_nat q)
      by (apply (Z.mod_unique_pos _ 8 (Z.of_nat i)); lia).
    rewrite Nat2Z.id. reflexivity.
  - replace (S (8 * i + q)) with (8 * i + S q)%nat by lia.
    apply IH. lia.
Qed.

Lemma land_mask_testbit (b p : Z) :
  0 <= p -> negb (Z.land b (2 ^ p) =? 0) = Z.testbit b p.
Proof.
  intros Hp. destruct (Z.testbit b p) eqn:E.
  - destruct (Z.eqb_spec (Z.land b (2 ^ p)) 0) as [H0 | H0]; [| reflexivity].
    assert (Hbit : Z.testbit (Z.land b (2 ^ p)) p = true)
      by (rewrite Z.land_spec, E, Z.pow2_bits_true by lia; reflexivity).
    rewrite H0, Z.bits_0 in Hbit. discriminate Hbit.
  - replace (Z.land b (2 ^ p)) with 0; [reflexivity |].
    symmetry. apply Z.bits_inj'. intros n Hn.
    rewrite Z.land_spec, Z.bits_0, Z.pow2_bits_eqb by lia.
    destruct (Z.eqb_spec p n) as [-> | Hne]; [rewrite E; reflexivity | apply andb_false_r].
Qed.

Lemma next_mask (q : nat) :
  (q <= 6)%nat ->
  to_block_t (Z.shiftr (2 ^ (7 - Z.of_nat q)) 1) = 2 ^ (7 - Z.of_nat (S q)).
Proof.
  intros Hq.
  do 7 (destruct q as [|q]; [reflexivity |]). lia.
Qed.

(** The [while] loop of [print_block], started with the mask of the
    [q]-th cell of the block and stopping at the mask of cell [q + d],
    prints the [d] cells from [q] on, each followed by a space. *)
Lemma print_block_loop_spec (block : block_t) (d : nat) :
  forall (fuel q : nat),
    (q + d <= 7)%nat -> (d <= fuel)%nat ->
    print_block_loop fuel block (2 ^ (7 - Z.of_nat q)) (2 ^ (7 - Z.of_nat (q + d)))
    = Some (spaced (map (fun t => Z.testbit block (7 - Z.of_nat t)) (seq q d))).
Proof.
  induction d as [|d IH]; intros fuel q Hq Hfuel.
  - rewrite Nat.add_0_r.
    destruct fuel; cbn [print_block_loop];
      rewrite Z.gtb_ltb, Z.ltb_irrefl; reflexivity.
  - destruct fuel as [|fuel]; [lia |]. cbn [print_block_loop].
    assert (Hgt : (2 ^ (7 - Z.of_nat q) >? 2 ^ (7 - Z.of_nat (q + S d))) = true).
    { apply Z.gtb_lt. apply Z.pow_lt_mono_r; lia. }
    rewrite Hgt, next_mask by lia.
    replace (q + S d)%nat with (S q + d)%nat by lia.
    rewrite IH by lia.
    rewrite land_mask_testbit by lia. reflexivity.
Qed.

(** [print_block] writes the first [bits] cells of the block, a space
    between neighbours. *)
Lemma print_block_spec (blocks : list block_t) (i : nat) (bits : Z) :
  1 <= bits <= 8 ->
  print_block (nth i blocks 0) bits
  = Done (line_of (cells_from blocks (8 * i) (Z.to_nat bits))).
Proof.
  intros Hb. unfold print_block.
  destruct (Z.gtb_spec bits 0); [| lia].
  unfold sizeof_block_t, BLOCK_SIZE.
  rewrite (Z.mod_small (8 * 1 - bits)) by lia.
  destruct (Z.ltb_spec (8 * 1 - bits) 31); [| lia].
  replace (to_block_t (Z.shiftl 1 (8 * 1 - 1))) with (2 ^ (7 - Z.of_nat 0))
    by reflexivity.
  assert (Hend : to_block_t (Z.shiftl 1 (8 * 1 - bits))
                 = 2 ^ (7 - Z.of_nat (0 + Z.to_nat (bits - 1)))).
  { assert (Hc : bits = 1 \/ bits = 2 \/ bits = 3 \/ bits = 4 \/ bits = 5
                 \/ bits = 6 \/ bits = 7 \/ bits = 8) by lia.
    destruct Hc as [-> | [-> | [-> | [-> | [-> | [-> | [-> | ->]]]]]]]; reflexivity. }
  rewrite Hend.
  change (Z.to_nat (8 * sizeof_block_t)) with 8%nat.
  rewrite print_block_loop_spec by lia.
  rewrite land_mask_testbit by lia.
  replace (Z.to_nat bits) with (Z.to_nat (bits - 1) + 1)%nat by lia.
  rewrite cells_from_app.
  rewrite (cells_from_block blocks i (Z.to_nat (bits - 1)) 1) by lia.
  pose proof (cells_from_block blocks i 0 (Z.to_nat (bits - 1)) ltac:(lia)) as Hfirst.
  rewrite Nat.add_0_r in Hfirst. rewrite Hfirst.
  cbn [seq map]. rewrite line_of_snoc. reflexivity.
Qed.

Lemma line_of_space (cs : list bool) :
  cs <> [] -> line_of cs ++ [space] = spaced cs.
Proof.
  induction cs as [|c cs IH]; intros Hne; [congruence |].
  destruct cs as [|c' cs]; [reflexivity |].
  change (line_of (c :: c' :: cs)) with (glyph c :: space :: line_of (c' :: cs)).
  cbn [app]. rewrite IH by discriminate. reflexivity.
Qed.

Lemma line_of_app_spaced (xs ys : list bool) :
  ys <> [] -> line_of (xs ++ ys) = spaced xs ++ line_of ys.
Proof.
  intros Hne. induction xs as [|x xs IH]; [reflexivity |].
  cbn [app]. destruct (xs ++ ys) eqn:E.
  - destruct xs; [cbn in E; congruence | discriminate E].
  - change (line_of (x :: b :: l)) with (glyph x :: space :: line_of (b :: l)).
    rewrite IH. reflexivity.
Qed.

Lemma read_block_nth (blocks : list block_t) (i : nat) :
  (i < length blocks)%nat ->
  read_block blocks (Z.of_nat i) = Done (nth i blocks 0).
Proof.
  intros Hi. unfold read_block.
  destruct (Z.ltb_spec (Z.of_nat i) 0); [lia |].
  rewrite Nat2Z.id.
  destruct (lookup_lt_is_Some_2 blocks i Hi) as [b Hb].
  rewrite Hb. f_equal. symmetry. apply nth_lookup_Some. exact Hb.
Qed.

(** The loop of [pretty_print] over [n] whole blocks from block [i] on
    writes their cells, each followed by a space. *)
Lemma pretty_print_loop_spec (blocks : list block_t) (n : nat) :
  forall i : nat,
    (i + n <= length blocks)%nat ->
    pretty_print_loop blocks n (Z.of_nat i)
    = Done (spaced (cells_from blocks (8 * i) (8 * n))).
Proof.
  induction n as [|n IH]; intros i Hi.
  - rewrite Nat.mul_0_r. reflexivity.
  - cbn [pretty_print_loop].
    rewrite read_block_nth by lia. cbn [obind].
    unfold print_as_characters.
    change (to_uint8_t (8 * sizeof_block_t)) with 8.
    rewrite print_block_spec by lia. cbn [obind].
    replace (Z.of_nat i + 1) with (Z.of_nat (S i)) by lia.
    rewrite IH by lia. cbn [obind].
    replace (8 * S n)%nat with (8 + 8 * n)%nat by lia.
    rewrite cells_from_app, spaced_app.
    replace (8 * i + 8)%nat with (8 * S i)%nat by lia.
    change (Z.to_nat 8) with 8%nat.
    rewrite app_assoc, line_of_space; [reflexivity |].
    unfold cells_from. discriminate.
Qed.

(** * The properties of the specification *)

(** C1.  Equivalence to the double-buffered reference fails on a seed whose
    cell 0 is alive: for the 24-cell row with only cell 0 alive, one call of
    [automaton_step] with rule 110 leaves every cell dead, while the
    reference, which copies the boundary cells, keeps cell 0 alive.
    ([run_generations_refines_naive_run] is the equivalence for the seeds
    whose cell 0 is dead.) *)
Theorem automaton_step_departs_from_reference :
  well_sized STATE_SIZE_main [128; 0; 0]
  /\ run_generations STATE_SIZE_main 1 [128; 0; 0] = Done [0; 0; 0]
  /\ naive_run rule110_result 1 (cells STATE_SIZE_main [128; 0; 0])
     = cells STATE_SIZE_main [128; 0; 0]
  /\ cells STATE_SIZE_main [0; 0; 0]
     <> naive_run rule110_result 1 (cells STATE_SIZE_main [128; 0; 0]).
Proof.
  split; [reflexivity |]. split; [vm_compute; reflexivity |].
  split; [vm_compute; reflexivity |].
  intros H. vm_compute in H. discriminate H.
Qed.

(** C2.  Boundary invariance fails for cell 0: in the 24-cell row with only
    cell 0 alive, cell 0 is alive before the call of [automaton_step] and
    dead after it, though the source comments that the first cell stays the
    same.  (The last cell does keep its value:
    [automaton_step_keeps_last_cell].) *)
Theorem automaton_step_changes_cell_0 :
  cell [128; 0; 0] 0 = true
  /\ exists state',
       automaton_step STATE_SIZE_main (Some [128; 0; 0]) (Some RULE110) = Done state'
       /\ cell state' 0 = false
       /\ cell state' (STATE_SIZE_main - 1) = cell [128; 0; 0] (STATE_SIZE_main - 1).
Proof.
  split; [reflexivity |]. exists [0; 0; 0].
  split; [vm_compute; reflexivity |]. split; reflexivity.
Qed.

(** C3, as the code has it.  Stepping the three-cell window [(l, c, r)]
    leaves in the centre cell its previous value XOR-ed with the table's
    entry for the code [l*4 + c*2 + r]: the table says whether the centre
    cell flips, not what it becomes. *)
Theorem window_step_center (rules : list bool) (l c r : bool) :
  length rules = 8%nat ->
  exists state',
    automaton_step 3 (Some (window l c r)) (Some rules) = Done state'
    /\ cell state' 1 = xorb c (rule_at rules l c r).
Proof.
  intros Hr. exists (after rules (window l c r) (Z.to_nat (3 - 1))).
  split; [apply automaton_step_spec; first [lia | destruct l, c, r; cbn; lia] |].
  rewrite (cell_after_step 3) by first [lia | destruct l, c, r; cbn; lia].
  cbn [Z.ltb Z.sub Z.add Z.opp Z.pos_sub Z.compare Pos.compare Pos.compare_cont].
  unfold pending. cbn [Z.eqb Z.sub Z.add Z.opp Z.pos_sub Pos.add Pos.succ].
  destruct l, c, r; reflexivity.
Qed.

Lemma window_step_center_witness :
  exists state',
    automaton_step 3 (Some (window true true false)) (Some RULE110) = Done state'
    /\ cell state' 1 = xorb true (rule_at RULE110 true true false).
Proof. apply (window_step_center RULE110 true true false). reflexivity. Defined.

(** C3 as stated fails: for the window 0,1,0 (code 2) the centre cell is
    alive after the step, and the entry of [RULE110] for code 2 is [false]. *)
Lemma window_step_center_is_not_table_entry :
  code false true false = 2
  /\ exists state',
       automaton_step 3 (Some (window false true false)) (Some RULE110) = Done state'
       /\ cell state' 1 = true
       /\ rule_at RULE110 false true false = false.
Proof.
  split; [reflexivity |]. exists [64].
  split; [vm_compute; reflexivity |]. split; reflexivity.
Qed.

(** C4.  In one call of [automaton_step] every read returns the value the
    cell had before the call, no position is read after it has been
    written, and the pass whose window starts at cell [k] is: read cells
    [k], [k+1], [k+2], then write cell [k] with the flag computed for it
    one pass earlier. *)
Theorem reads_see_previous_generation (STATE_SIZE : Z) (rules : list bool)
    (state : list block_t) :
  3 <= STATE_SIZE -> length rules = 8%nat -> well_sized STATE_SIZE state ->
  exists state' t,
    automaton_step_body STATE_SIZE (Some rules) (mk_machine state [])
    = Done (tt, mk_machine state' t)
    /\ (forall v b, In (Read v b) t ->
          exists k, 0 <= k < STATE_SIZE /\ v = view_of k /\ b = cell state k)
    /\ (forall t1 v t2 b, t = t1 ++ Flip v :: t2 -> ~ In (Read v b) t2)
    /\ (forall k, 0 <= k <= STATE_SIZE - 3 ->
          exists t1 t2, t = t1 ++ body_events rules state k ++ t2).
Proof.
  intros HN Hr Hws.
  pose proof (well_sized_covers STATE_SIZE state ltac:(lia) Hws) as Hcov.
  exists (after rules state (Z.to_nat (STATE_SIZE - 1))), (step_events STATE_SIZE rules state).
  split; [apply automaton_step_body_spec; side |].
  split; [| split].
  - intros v b Hin. apply in_step_events in Hin; try lia.
    destruct Hin as [[k [Hk E]] | [k [_ [_ E]]]]; [| discriminate].
    exists k. injection E as -> ->. repeat split; lia.
  - intros t1 v t2 b E.
    apply (reads_before_writes_split _ t1 t2 v b (reads_before_writes_step rules state STATE_SIZE) E).
  - intros k Hk.
    destruct (body_in_events_upto rules state (Z.to_nat (STATE_SIZE - 2)) k ltac:(lia))
      as [t1 [t2 E]].
    exists t1, (t2 ++ (if pending rules state (STATE_SIZE - 2)
                       then [Flip (view_of (STATE_SIZE - 2))] else [])).
    unfold step_events. rewrite E, <- !app_assoc. reflexivity.
Qed.

Lemma reads_see_previous_generation_witness :
  exists state' t,
    automaton_step_body STATE_SIZE_main (Some RULE110) (mk_machine automaton_state_main [])
    = Done (tt, mk_machine state' t)
    /\ (forall v b, In (Read v b) t ->
          exists k, 0 <= k < STATE_SIZE_main /\ v = view_of k
                    /\ b = cell automaton_state_main k)
    /\ (forall t1 v t2 b, t = t1 ++ Flip v :: t2 -> ~ In (Read v b) t2)
    /\ (forall k, 0 <= k <= STATE_SIZE_main - 3 ->
          exists t1 t2, t = t1 ++ body_events RULE110 automaton_state_main k ++ t2).
Proof.
  apply (reads_see_previous_generation STATE_SIZE_main RULE110 automaton_state_main).
  - unfold STATE_SIZE_main. lia.
  - reflexivity.
  - reflexivity.
Defined.

(** C5, as the code has it.  In the seed [{0, 1, 2}] of the 24-cell row the
    cells alive are 15 and 22; after one call of [automaton_step] with rule
    110 the cells alive are 14, 15, 21 and 22, so that cells 21 and 22 are
    alive, and cells 23 and 0 are as they were. *)
Theorem main_seed_first_step :
  alive_cells STATE_SIZE_main automaton_state_main = [15; 22]%nat
  /\ exists state',
       automaton_step STATE_SIZE_main (Some automaton_state_main) (Some RULE110)
       = Done state'
       /\ alive_cells STATE_SIZE_main state' = [14; 15; 21; 22]%nat
       /\ cell state' 21 = true
       /\ cell state' 22 = true
       /\ cell state' 23 = cell automaton_state_main 23
       /\ cell state' 0 = cell automaton_state_main 0.
Proof.
  split; [reflexivity |]. exists [0; 3; 6].
  split; [vm_compute; reflexivity |]. repeat split; reflexivity.
Qed.

(** C5 as stated fails: cell 22 is not the only cell alive in the seed,
    cell 15 (bit 0 of block 1) is alive too. *)
Lemma main_seed_has_cell_15_alive :
  ~ (forall k, 0 <= k < STATE_SIZE_main ->
       cell automaton_state_main k = true -> k = 22).
Proof. intros H. specialize (H 15 ltac:(cbv; split; congruence) eq_refl). discriminate H. Qed.

(** C6, as the code has it.  For a row of at least three cells, a state
    whose cells are all dead is left as it is by any number of calls of
    [automaton_step] with rule 110. *)
Theorem all_dead_is_fixed (STATE_SIZE : Z) (n : nat) (state : list block_t) :
  3 <= STATE_SIZE -> well_sized STATE_SIZE state ->
  cells STATE_SIZE state = repeat false (Z.to_nat STATE_SIZE) ->
  run_generations STATE_SIZE n state = Done state.
Proof.
  intros HN Hws Hdead.
  pose proof (well_sized_covers STATE_SIZE state ltac:(lia) Hws) as Hcov.
  assert (Hcell : forall i, 0 <= i < STATE_SIZE -> cell state i = false).
  { intros i Hi. rewrite <- (Z2Nat.id i) by lia.
    rewrite <- (nth_cells STATE_SIZE) by lia.
    rewrite Hdead. apply nth_repeat. }
  induction n as [|n IH]; cbn [run_generations]; [reflexivity |].
  rewrite automaton_step_spec by side.
  rewrite after_no_flag; [exact IH |].
  intros k Hk. apply (pending_dead STATE_SIZE); [exact Hcell | lia].
Qed.

Lemma all_dead_is_fixed_witness :
  run_generations STATE_SIZE_main 100 [0; 0; 0] = Done [0; 0; 0].
Proof.
  apply (all_dead_is_fixed STATE_SIZE_main 100 [0; 0; 0]).
  - unfold STATE_SIZE_main. lia.
  - reflexivity.
  - reflexivity.
Defined.

(** C6 as stated fails for a row of fewer than three cells: with two cells
    the loop of [automaton_step] is not entered and the last write reads
    [curr_result], which was never assigned. *)
Lemma all_dead_two_cells_undefined :
  well_sized 2 [0]
  /\ cells 2 [0] = repeat false 2
  /\ run_generations 2 1 [0] = Undefined
  /\ run_generations 2 1 [0] <> Done [0].
Proof.
  split; [reflexivity |]. split; [reflexivity |].
  split; [reflexivity | discriminate].
Qed.

(** C7, as the code has it.  [get_bit] and [bit_flip] assert one thing,
    that the view pointer is not [NULL]: the assertion fails exactly for a
    [NULL] view, and no assertion depends on the block or the position the
    view names. *)
Theorem access_asserts_only_non_null (pview : option bit_view_t) (m : machine) :
  (get_bit pview m = AssertFailed <-> pview = None)
  /\ (bit_flip pview m = AssertFailed <-> pview = None).
Proof.
  split; (split; [| intros ->; reflexivity]).
  - destruct pview as [v |]; [| reflexivity]. intros H. exfalso. revert H.
    unfold get_bit, assert_not_null, bind, load_block, shr_int, emit, ret, undefined.
    destruct (pblock v <? 0); [discriminate |].
    destruct (mem m !! Z.to_nat (pblock v)); [| discriminate].
    destruct ((0 <=? position v) && (position v <? 32)); discriminate.
  - destruct pview as [v |]; [| reflexivity]. intros H. exfalso. revert H.
    unfold bit_flip, assert_not_null, bind, load_block, store_block, shl_int_1,
      emit, ret, undefined.
    destruct (pblock v <? 0) eqn:E; [discriminate |].
    destruct (mem m !! Z.to_nat (pblock v)) eqn:E'; [| discriminate].
    destruct ((0 <=? position v) && (position v <? 31)); [| discriminate].
    rewrite E'. discriminate.
Qed.

(** C7 as stated fails: reading or flipping the cell at index 24 of the
    24-cell row (the view one block past the array) is not stopped by an
    assertion, and in a 20-cell row the accesses at index 20, a padding bit
    of the last block, return normally. *)
Lemma out_of_range_access_is_not_asserted :
  get_bit (Some (view_of STATE_SIZE_main)) (mk_machine automaton_state_main [])
    = Undefined
  /\ bit_flip (Some (view_of STATE_SIZE_main)) (mk_machine automaton_state_main [])
    = Undefined
  /\ well_sized 20 [0; 0; 15]
  /\ get_bit (Some (view_of 20)) (mk_machine [0; 0; 15] [])
     = Done (true, mk_machine [0; 0; 15] [Read (view_of 20) true])
  /\ bit_flip (Some (view_of 20)) (mk_machine [0; 0; 15] [])
     = Done (tt, mk_machine [0; 0; 7] [Flip (view_of 20)]).
Proof. repeat split. Qed.

(** C8.  [pretty_print] writes one line: for each of the [STATE_SIZE] cells
    of the row, in order, [#] if the cell is alive and a space if it is
    dead, with exactly one space between the glyphs of neighbouring cells
    (also where a block ends), nothing for the padding bits of the last
    block, and a line feed (character 10) at the end. *)
Theorem pretty_print_renders_cells (STATE_SIZE : Z) (state : list block_t) :
  1 <= STATE_SIZE < 2 ^ 31 -> well_sized STATE_SIZE state ->
  pretty_print STATE_SIZE (Some state)
  = Done (line_of (cells STATE_SIZE state) ++ ["010"%char]).
Proof.
  intros HN Hws. unfold well_sized in Hws.
  pose proof (ARRAY_SIZE_covers STATE_SIZE ltac:(lia)) as Hcov.
  pose proof (Z.div_mod STATE_SIZE 8 ltac:(lia)) as Hdm.
  pose proof (Z.mod_pos_bound STATE_SIZE 8 ltac:(lia)) as Hmod.
  set (rem := if STATE_SIZE mod 8 * sizeof_block_t =? 0 then 8 * sizeof_block_t
              else STATE_SIZE mod 8 * sizeof_block_t).
  assert (Hrem : 1 <= rem <= 8 /\ STATE_SIZE = 8 * (ARRAY_SIZE STATE_SIZE - 1) + rem).
  { subst rem. unfold ARRAY_SIZE, sizeof_block_t.
    destruct (Z.eqb_spec (STATE_SIZE mod 8 * 1) 0); lia. }
  destruct Hrem as [Hrem HN8].
  assert (Hlast : 0 <= ARRAY_SIZE STATE_SIZE - 1 < 2 ^ 64) by lia.
  unfold pretty_print. fold rem.
  rewrite (Z.mod_small (ARRAY_SIZE STATE_SIZE - 1)) by exact Hlast.
  set (last := Z.to_nat (ARRAY_SIZE STATE_SIZE - 1)).
  pose proof (pretty_print_loop_spec state last 0 ltac:(lia)) as Hloop.
  change (Z.of_nat 0) with 0 in Hloop. rewrite Hloop. cbn [obind].
  replace (ARRAY_SIZE STATE_SIZE - 1) with (Z.of_nat last) by lia.
  rewrite read_block_nth by lia. cbn [obind].
  unfold print_as_characters.
  unfold to_uint8_t. rewrite (Z.mod_small rem) by lia.
  rewrite print_block_spec by lia. cbn [obind].
  rewrite cells_cells_from.
  replace (Z.to_nat STATE_SIZE) with (8 * last + Z.to_nat rem)%nat by lia.
  rewrite cells_from_app, line_of_app_spaced.
  - rewrite Nat.mul_0_r, Nat.add_0_l, <- app_assoc. reflexivity.
  - unfold cells_from. destruct (Z.to_nat rem) eqn:E; [lia | discriminate].
Qed.

Lemma pretty_print_renders_cells_witness :
  pretty_print STATE_SIZE_main (Some automaton_state_main)
  = Done (line_of (cells STATE_SIZE_main automaton_state_main) ++ ["010"%char]).
Proof.
  apply (pretty_print_renders_cells STATE_SIZE_main automaton_state_main).
  - unfold STATE_SIZE_main. lia.
  - reflexivity.
Defined.

(** C9.  After one call of [automaton_step], whatever the state before,
    cell 0 is dead; the write to cell 0 (the first pending write) flips it
    exactly when it was alive before the call. *)
Theorem automaton_step_clears_cell_0 (STATE_SIZE : Z) (rules : list bool)
    (state : list block_t) :
  3 <= STATE_SIZE -> length rules = 8%nat -> well_sized STATE_SIZE state ->
  exists state' t,
    automaton_step_body STATE_SIZE (Some rules) (mk_machine state [])
    = Done (tt, mk_machine state' t)
    /\ automaton_step STATE_SIZE (Some state) (Some rules) = Done state'
    /\ cell state' 0 = false
    /\ (In (Flip (view_of 0)) t <-> cell state 0 = true).
Proof.
  intros HN Hr Hws.
  pose proof (well_sized_covers STATE_SIZE state ltac:(lia) Hws) as Hcov.
  exists (after rules state (Z.to_nat (STATE_SIZE - 1))), (step_events STATE_SIZE rules state).
  split; [apply automaton_step_body_spec; side |].
  split; [apply automaton_step_spec; side |].
  split.
  - rewrite cell_after_step by side.
    destruct (Z.ltb_spec 0 (STATE_SIZE - 1)); [| lia].
    unfold pending. cbn [Z.eqb]. apply xorb_nilpotent.
  - split.
    + intros Hin. apply in_step_events in Hin; try lia.
      destruct Hin as [[k [_ Hk]] | [k [_ [Hp Hk]]]]; [discriminate |].
      assert (E : view_of 0 = view_of k) by congruence.
      apply view_of_inj in E. subst k. exact Hp.
    + intros Halive. apply flip_in_step_events; first [lia | exact Halive].
Qed.

Lemma automaton_step_clears_cell_0_witness :
  exists state' t,
    automaton_step_body STATE_SIZE_main (Some RULE110) (mk_machine [128; 0; 0] [])
    = Done (tt, mk_machine state' t)
    /\ automaton_step STATE_SIZE_main (Some [128; 0; 0]) (Some RULE110) = Done state'
    /\ cell state' 0 = false
    /\ (In (Flip (view_of 0)) t <-> cell [128; 0; 0] 0 = true).
Proof.
  apply (automaton_step_clears_cell_0 STATE_SIZE_main RULE110 [128; 0; 0]).
  - unfold STATE_SIZE_main. lia.
  - reflexivity.
  - reflexivity.
Defined.

(** C10.  In a call of [automaton_step] on a row of whole blocks, each view
    dereferenced by [get_bit] or [bit_flip] has its block inside the
    [ARRAY_SIZE]-block array and its position in [0, BLOCK_SIZE); the
    [right_view] the last pass of the loop computes has its block one past
    the end of the array, and it is not dereferenced. *)
Theorem automaton_step_accesses_in_bounds (STATE_SIZE : Z) (rules : list bool)
    (state : list block_t) :
  3 <= STATE_SIZE -> STATE_SIZE mod 8 = 0 ->
  length rules = 8%nat -> well_sized STATE_SIZE state ->
  exists ls m state' t,
    automaton_step_loop STATE_SIZE (Some rules) (mk_machine state []) = Done (ls, m)
    /\ automaton_step_body STATE_SIZE (Some rules) (mk_machine state [])
       = Done (tt, mk_machine state' t)
    /\ Forall (fun e => 0 <= pblock (event_view e) < ARRAY_SIZE STATE_SIZE
                        /\ 0 <= position (event_view e) < BLOCK_SIZE) t
    /\ right_view ls = {| pblock := ARRAY_SIZE STATE_SIZE; position := BLOCK_SIZE - 1 |}
    /\ ~ In (right_view ls) (map event_view t).
Proof.
  intros HN Hmod Hr Hws.
  pose proof (well_sized_covers STATE_SIZE state ltac:(lia) Hws) as Hcov.
  exists (locals_at rules state (Z.to_nat (STATE_SIZE - 2))),
         (mk_machine (after rules state (Z.to_nat (STATE_SIZE - 2)))
                     (events_upto rules state (Z.to_nat (STATE_SIZE - 2)))),
         (after rules state (Z.to_nat (STATE_SIZE - 1))),
         (step_events STATE_SIZE rules state).
  split; [apply automaton_step_loop_spec; side |].
  split; [apply automaton_step_body_spec; side |].
  assert (Hright : right_view (locals_at rules state (Z.to_nat (STATE_SIZE - 2)))
                   = view_of STATE_SIZE).
  { cbn [right_view locals_at]. f_equal. lia. }
  split; [| split].
  - apply Forall_forall. intros e Hin. apply list_elem_of_In in Hin.
    destruct (step_events_in_bounds _ _ _ _ HN Hin) as [k [Hk ->]].
    apply view_of_in_array. exact Hk.
  - rewrite Hright. unfold view_of, ARRAY_SIZE, BLOCK_SIZE, sizeof_block_t.
    rewrite Hmod. change (0 * 1 =? 0) with true. cbv iota. f_equal; lia.
  - rewrite Hright. intros Hin. apply in_map_iff in Hin.
    destruct Hin as [e [Ev Hin]].
    destruct (step_events_in_bounds _ _ _ _ HN Hin) as [k [Hk Ek]].
    rewrite Ek in Ev. apply view_of_inj in Ev. lia.
Qed.

Lemma automaton_step_accesses_in_bounds_witness :
  exists ls m state' t,
    automaton_step_loop STATE_SIZE_main (Some RULE110) (mk_machine automaton_state_main [])
    = Done (ls, m)
    /\ automaton_step_body STATE_SIZE_main (Some RULE110) (mk_machine automaton_state_main [])
       = Done (tt, mk_machine state' t)
    /\ Forall (fun e => 0 <= pblock (event_view e) < ARRAY_SIZE STATE_SIZE_main
                        /\ 0 <= position (event_view e) < BLOCK_SIZE) t
    /\ right_view ls = {| pblock := ARRAY_SIZE STATE_SIZE_main; position := BLOCK_SIZE - 1 |}
    /\ ~ In (right_view ls) (map event_view t).
Proof.
  apply (automaton_step_accesses_in_bounds STATE_SIZE_main RULE110 automaton_state_main).
  - unfold STATE_SIZE_main. lia.
  - reflexivity.
  - reflexivity.
  - reflexivity.
Defined.

(** * Further properties of the code *)

(** ** Bit access *)

Lemma flip_cell_twice (blocks : list block_t) (k : Z) :
  0 <= k < 8 * Z.of_nat (length blocks) -> all_block_t blocks = true ->
  flip_cell (flip_cell blocks k) k = blocks.
Proof.
  intros Hk Hall.
  destruct (block_index_ok _ _ Hk) as [_ Hlook].
  pose proof (view_of_position_range k) as Hpos. cbn in Hpos.
  assert (Hlt : (Z.to_nat (k / 8) < length blocks)%nat)
    by (apply lookup_lt_is_Some; eauto).
  set (b := nth (Z.to_nat (k / 8)) blocks 0) in *.
  assert (Hb : 0 <= b < 2 ^ 8).
  { unfold all_block_t in Hall. rewrite forallb_forall in Hall.
    assert (Hin : In b blocks) by (apply list_elem_of_In, list_elem_of_lookup; eauto).
    specialize (Hall b Hin). unfold sizeof_block_t in Hall.
    apply andb_prop in Hall. destruct Hall as [H1 H2].
    apply Z.leb_le in H1. apply Z.ltb_lt in H2. lia. }
  unfold flip_cell at 1.
  assert (Hnth : nth (Z.to_nat (k / 8)) (flip_cell blocks k) 0
                 = to_block_t (Z.lxor b (Z.shiftl 1 (7 - k mod 8)))).
  { unfold flip_cell. fold b. apply nth_lookup_Some.
    apply list_lookup_insert_eq. exact Hlt. }
  rewrite Hnth. unfold flip_cell. fold b.
  rewrite list_insert_insert_eq. apply list_insert_id. rewrite Hlook. f_equal.
  unfold to_block_t, sizeof_block_t. change (8 * 1) with 8.
  symmetry. transitivity (b mod 2 ^ 8); [| apply Z.mod_small; exact Hb].
  apply Z.bits_inj'. intros n Hn.
  rewrite !Z.testbit_mod_pow2, Z.lxor_spec, Z.testbit_mod_pow2, Z.lxor_spec by lia.
  destruct (n <? 8); cbn [andb]; [| reflexivity].
  destruct (Z.testbit b n), (Z.testbit (Z.shiftl 1 (7 - k mod 8)) n); reflexivity.
Qed.

(** X1.  [bit_flip] undoes itself: flipping the bit of a cell of the array
    twice leaves the array as it was. *)
Theorem bit_flip_twice (k : Z) (m : machine) :
  0 <= k < 8 * Z.of_nat (length (mem m)) -> all_block_t (mem m) = true ->
  exists m1 m2,
    bit_flip (Some (view_of k)) m = Done (tt, m1)
    /\ bit_flip (Some (view_of k)) m1 = Done (tt, m2)
    /\ mem m2 = mem m.
Proof.
  intros Hk Hall.
  eexists. eexists. split; [apply bit_flip_view; exact Hk |].
  split.
  - apply bit_flip_view. cbn [mem]. rewrite length_flip_cell. exact Hk.
  - cbn [mem]. apply flip_cell_twice; assumption.
Qed.

Lemma bit_flip_twice_witness :
  exists m1 m2,
    bit_flip (Some (view_of 22)) (mk_machine automaton_state_main []) = Done (tt, m1)
    /\ bit_flip (Some (view_of 22)) m1 = Done (tt, m2)
    /\ mem m2 = mem (mk_machine automaton_state_main []).
Proof.
  apply (bit_flip_twice 22 (mk_machine automaton_state_main [])).
  - unfold automaton_state_main, STATE_SIZE_main; cbn [length mem]; lia.
  - reflexivity.
Defined.

(** X2.  [conditional_bit_flip] on cell [k] changes what [get_bit] returns
    for cell [k] exactly when the flag is set, and never what it returns
    for another cell. *)
Theorem get_bit_after_conditional_bit_flip (k k' : Z) (flip : bool) (m : machine) :
  0 <= k < 8 * Z.of_nat (length (mem m)) ->
  0 <= k' < 8 * Z.of_nat (length (mem m)) ->
  exists b m0 m1 m2,
    get_bit (Some (view_of k')) m = Done (b, m0)
    /\ conditional_bit_flip (Some (view_of k)) flip m = Done (tt, m1)
    /\ get_bit (Some (view_of k')) m1 = Done (xorb b (flip && (k =? k')), m2)
    /\ mem m2 = mem m1.
Proof.
  intros Hk Hk'.
  eexists. eexists. eexists. eexists.
  split; [apply get_bit_view; exact Hk' |].
  split; [apply conditional_bit_flip_view; exact Hk |].
  split.
  - rewrite get_bit_view by (cbn [mem]; rewrite length_cond_flip; exact Hk').
    cbn [mem]. rewrite cell_cond_flip by lia. reflexivity.
  - reflexivity.
Qed.

Lemma get_bit_after_conditional_bit_flip_witness :
  exists b m0 m1 m2,
    get_bit (Some (view_of 22)) (mk_machine automaton_state_main []) = Done (b, m0)
    /\ conditional_bit_flip (Some (view_of 22)) true (mk_machine automaton_state_main [])
       = Done (tt, m1)
    /\ get_bit (Some (view_of 22)) m1 = Done (xorb b (true && (22 =? 22)), m2)
    /\ mem m2 = mem m1.
Proof.
  apply (get_bit_after_conditional_bit_flip 22 22 true (mk_machine automaton_state_main [])).
  - unfold automaton_state_main, STATE_SIZE_main; cbn [length mem]; lia.
  - unfold automaton_state_main, STATE_SIZE_main; cbn [length mem]; lia.
Defined.

(** X3.  On a window inside the array [evaluate] returns the entry of the
    table at index [left*4 + center*2 + right] of the three bits [get_bit]
    returns for its views, and leaves the array as it was; when the table
    has no entry at that index the table access is out of bounds. *)
Theorem evaluate_table_entry (rules : list bool) (k : Z) (m : machine) :
  0 <= k -> k + 2 < 8 * Z.of_nat (length (mem m)) ->
  exists l c r ml mc mr,
    get_bit (Some (view_of k)) m = Done (l, ml)
    /\ get_bit (Some (view_of (k + 1))) m = Done (c, mc)
    /\ get_bit (Some (view_of (k + 2))) m = Done (r, mr)
    /\ match rules !! Z.to_nat (Z.b2z l * 4 + Z.b2z c * 2 + Z.b2z r) with
       | Some res =>
           exists m',
             evaluate (Some (view_of k)) (Some (view_of (k + 1)))
                      (Some (view_of (k + 2))) (Some rules) m = Done (res, m')
             /\ mem m' = mem m
       | None =>
           evaluate (Some (view_of k)) (Some (view_of (k + 1)))
                    (Some (view_of (k + 2))) (Some rules) m = Undefined
       end.
Proof.
  intros Hk Hk2.
  do 6 eexists.
  split; [apply get_bit_view; lia |].
  split; [apply get_bit_view; lia |].
  split; [apply get_bit_view; lia |].
  unfold evaluate, assert_not_null.
  do 3 (erewrite bind_Done by (apply get_bit_view; cbn [mem]; lia)).
  cbn [mem log]. rewrite code_shift. fold (code (cell (mem m) k) (cell (mem m) (k + 1))
                                             (cell (mem m) (k + 2))).
  destruct (rules !! Z.to_nat (code (cell (mem m) k) (cell (mem m) (k + 1))
                                    (cell (mem m) (k + 2)))).
  - eexists. split; reflexivity.
  - reflexivity.
Qed.

Lemma evaluate_table_entry_witness :
  exists l c r ml mc mr,
    get_bit (Some (view_of 20)) (mk_machine automaton_state_main []) = Done (l, ml)
    /\ get_bit (Some (view_of (20 + 1))) (mk_machine automaton_state_main []) = Done (c, mc)
    /\ get_bit (Some (view_of (20 + 2))) (mk_machine automaton_state_main []) = Done (r, mr)
    /\ match RULE110 !! Z.to_nat (Z.b2z l * 4 + Z.b2z c * 2 + Z.b2z r) with
       | Some res =>
           exists m',
             evaluate (Some (view_of 20)) (Some (view_of (20 + 1)))
                      (Some (view_of (20 + 2))) (Some RULE110)
                      (mk_machine automaton_state_main []) = Done (res, m')
             /\ mem m' = mem (mk_machine automaton_state_main [])
       | None =>
           evaluate (Some (view_of 20)) (Some (view_of (20 + 1)))
                    (Some (view_of (20 + 2))) (Some RULE110)
                    (mk_machine automaton_state_main []) = Undefined
       end.
Proof.
  apply (evaluate_table_entry RULE110 20 (mk_machine automaton_state_main [])).
  - lia.
  - unfold automaton_state_main, STATE_SIZE_main; cbn [length mem]; lia.
Defined.

(** ** The step *)

Lemma cells_eq_cell (n : Z) (s s' : list block_t) (k : Z) :
  cells n s = cells n s' -> 0 <= k < n -> cell s k = cell s' k.
Proof.
  intros E Hk. rewrite <- (Z2Nat.id k) by lia.
  rewrite <- !(nth_cells n) by lia. rewrite E. reflexivity.
Qed.

Lemma cells_ext (n : Z) (s s' : list block_t) :
  (forall k, 0 <= k < n -> cell s k = cell s' k) -> cells n s = cells n s'.
Proof.
  intros H. unfold cells. apply map_ext_in. intros k Hk.
  apply in_seq in Hk. apply H. lia.
Qed.

(** X4.  One call of [automaton_step] with any table of eight entries, on
    an array that holds the row: the array keeps its length, cell 0 ends
    dead, every cell from 1 to [STATE_SIZE - 2] ends as its old value XOR
    the table's entry for its old neighbourhood, and every bit from cell
    [STATE_SIZE - 1] on (the last cell, padding bits, further blocks) is
    left as it was. *)
Theorem automaton_step_cell_by_cell (STATE_SIZE : Z) (rules : list bool)
    (state : list block_t) :
  3 <= STATE_SIZE -> length rules = 8%nat ->
  STATE_SIZE <= 8 * Z.of_nat (length state) ->
  exists state',
    automaton_step STATE_SIZE (Some state) (Some rules) = Done state'
    /\ length state' = length state
    /\ cell state' 0 = false
    /\ (forall k, 1 <= k <= STATE_SIZE - 2 ->
          cell state' k
          = xorb (cell state k)
                 (rule_at rules (cell state (k - 1)) (cell state k) (cell state (k + 1))))
    /\ (forall k, STATE_SIZE - 1 <= k -> cell state' k = cell state k).
Proof.
  intros HN Hr Hcov.
  exists (after rules state (Z.to_nat (STATE_SIZE - 1))).
  split; [apply automaton_step_spec; side |].
  split; [apply length_after |].
  split; [| split].
  - rewrite cell_after_step by side.
    destruct (Z.ltb_spec 0 (STATE_SIZE - 1)); [| lia].
    unfold pending. cbn [Z.eqb]. apply xorb_nilpotent.
  - intros k Hk. rewrite cell_after_step by side.
    destruct (Z.ltb_spec k (STATE_SIZE - 1)); [| lia].
    unfold pending. destruct (Z.eqb_spec k 0); [lia | reflexivity].
  - intros k Hk. rewrite cell_after_step by side.
    destruct (Z.ltb_spec k (STATE_SIZE - 1)); [lia | reflexivity].
Qed.

Lemma automaton_step_cell_by_cell_witness :
  exists state',
    automaton_step STATE_SIZE_main (Some [129; 66; 36]) (Some RULE110) = Done state'
    /\ length state' = length [129; 66; 36]
    /\ cell state' 0 = false
    /\ (forall k, 1 <= k <= STATE_SIZE_main - 2 ->
          cell state' k
          = xorb (cell [129; 66; 36] k)
                 (rule_at RULE110 (cell [129; 66; 36] (k - 1)) (cell [129; 66; 36] k)
                          (cell [129; 66; 36] (k + 1))))
    /\ (forall k, STATE_SIZE_main - 1 <= k -> cell state' k = cell [129; 66; 36] k).
Proof.
  apply (automaton_step_cell_by_cell STATE_SIZE_main RULE110 [129; 66; 36]).
  - unfold STATE_SIZE_main. lia.
  - reflexivity.
  - unfold automaton_state_main, STATE_SIZE_main; cbn [length mem]; lia.
Defined.

(** X5.  The cells of the row after a call of [automaton_step] depend only
    on the cells of the row before it: two arrays that agree on the
    [STATE_SIZE] cells (and may differ in padding bits) agree on them after
    the call. *)
Theorem automaton_step_depends_on_cells (STATE_SIZE : Z) (rules : list bool)
    (s s' : list block_t) :
  3 <= STATE_SIZE -> length rules = 8%nat ->
  STATE_SIZE <= 8 * Z.of_nat (length s) ->
  STATE_SIZE <= 8 * Z.of_nat (length s') ->
  cells STATE_SIZE s = cells STATE_SIZE s' ->
  exists r r',
    automaton_step STATE_SIZE (Some s) (Some rules) = Done r
    /\ automaton_step STATE_SIZE (Some s') (Some rules) = Done r'
    /\ cells STATE_SIZE r = cells STATE_SIZE r'.
Proof.
  intros HN Hr Hs Hs' E.
  exists (after rules s (Z.to_nat (STATE_SIZE - 1))),
         (after rules s' (Z.to_nat (STATE_SIZE - 1))).
  split; [apply automaton_step_spec; side |].
  split; [apply automaton_step_spec; side |].
  apply cells_ext. intros k Hk.
  rewrite !cell_after_step by side.
  rewrite (cells_eq_cell _ _ _ k E) by lia.
  destruct (Z.ltb_spec k (STATE_SIZE - 1)); [| reflexivity].
  f_equal. unfold pending.
  destruct (Z.eqb_spec k 0).
  - apply (cells_eq_cell _ _ _ 0 E). lia.
  - rewrite (cells_eq_cell _ _ _ (k - 1) E), (cells_eq_cell _ _ _ k E),
      (cells_eq_cell _ _ _ (k + 1) E) by lia.
    reflexivity.
Qed.

Lemma automaton_step_depends_on_cells_witness :
  exists r r',
    automaton_step 20 (Some [0; 1; 32]) (Some RULE110) = Done r
    /\ automaton_step 20 (Some [0; 1; 47]) (Some RULE110) = Done r'
    /\ cells 20 r = cells 20 r'.
Proof.
  apply (automaton_step_depends_on_cells 20 RULE110 [0; 1; 32] [0; 1; 47]).
  - lia.
  - reflexivity.
  - unfold automaton_state_main, STATE_SIZE_main; cbn [length mem]; lia.
  - unfold automaton_state_main, STATE_SIZE_main; cbn [length mem]; lia.
  - reflexivity.
Defined.

(** X6.  For a seed whose cell 0 is dead, any number of calls of
    [automaton_step] with [RULE110] gives the cells that the double-buffered
    rule-110 reference gives after as many generations. *)
Theorem dead_cell_0_runs_as_reference (STATE_SIZE : Z) (n : nat)
    (state : list block_t) :
  3 <= STATE_SIZE -> well_sized STATE_SIZE state -> cell state 0 = false ->
  exists state',
    run_generations STATE_SIZE n state = Done state'
    /\ cells STATE_SIZE state' = naive_run rule110_result n (cells STATE_SIZE state).
Proof.
  intros HN Hws H0. apply run_generations_refines_naive_run; assumption.
Qed.

Lemma dead_cell_0_runs_as_reference_witness :
  exists state',
    run_generations STATE_SIZE_main 100 automaton_state_main = Done state'
    /\ cells STATE_SIZE_main state'
       = naive_run rule110_result 100 (cells STATE_SIZE_main automaton_state_main).
Proof.
  apply (dead_cell_0_runs_as_reference STATE_SIZE_main 100 automaton_state_main).
  - unfold STATE_SIZE_main. lia.
  - reflexivity.
  - reflexivity.
Defined.

(** X7.  For any seed, one call of [automaton_step] with [RULE110] gives
    the reference's next generation with cell 0 cleared. *)
Theorem automaton_step_is_reference_with_cell_0_cleared (STATE_SIZE : Z)
    (state : list block_t) :
  3 <= STATE_SIZE -> well_sized STATE_SIZE state ->
  exists state',
    automaton_step STATE_SIZE (Some state) (Some RULE110) = Done state'
    /\ cells STATE_SIZE state'
       = false :: tl (naive_step rule110_result (cells STATE_SIZE state)).
Proof.
  intros HN Hws.
  destruct (automaton_step_cells STATE_SIZE state HN Hws) as [state' [Hrun [_ [H0 Hk]]]].
  exists state'. split; [exact Hrun |].
  assert (Hlen : length (naive_step rule110_result (cells STATE_SIZE state))
                 = Z.to_nat STATE_SIZE).
  { unfold naive_step. rewrite length_map, length_seq, length_cells. reflexivity. }
  apply (nth_ext _ _ false false).
  - rewrite length_cells. cbn [length].
    destruct (naive_step rule110_result (cells STATE_SIZE state)); cbn in *; lia.
  - intros k Hlt. rewrite length_cells in Hlt. destruct k as [|k].
    + rewrite nth_cells by lia. exact H0.
    + rewrite Hk by lia. cbn [nth].
      destruct (naive_step rule110_result (cells STATE_SIZE state));
        [destruct k |]; reflexivity.
Qed.

Lemma automaton_step_is_reference_with_cell_0_cleared_witness :
  exists state',
    automaton_step STATE_SIZE_main (Some [129; 66; 36]) (Some RULE110) = Done state'
    /\ cells STATE_SIZE_main state'
       = false :: tl (naive_step rule110_result (cells STATE_SIZE_main [129; 66; 36])).
Proof.
  apply (automaton_step_is_reference_with_cell_0_cleared STATE_SIZE_main [129; 66; 36]).
  - unfold STATE_SIZE_main. lia.
  - reflexivity.
Defined.

(** X8.  With any table of eight entries, one call of [automaton_step]
    leaves a row of dead cells as it is if and only if the table's entry
    for the neighbourhood 000 is [false]. *)
Theorem all_dead_fixed_iff_entry_0 (STATE_SIZE : Z) (rules : list bool)
    (state : list block_t) :
  3 <= STATE_SIZE -> length rules = 8%nat -> well_sized STATE_SIZE state ->
  cells STATE_SIZE state = repeat false (Z.to_nat STATE_SIZE) ->
  (automaton_step STATE_SIZE (Some state) (Some rules) = Done state
   <-> nth 0 rules false = false).
Proof.
  intros HN Hr Hws Hdead.
  pose proof (well_sized_covers STATE_SIZE state ltac:(lia) Hws) as Hcov.
  assert (Hcell : forall i, 0 <= i < STATE_SIZE -> cell state i = false).
  { intros i Hi. rewrite <- (Z2Nat.id i) by lia.
    rewrite <- (nth_cells STATE_SIZE) by lia.
    rewrite Hdead. apply nth_repeat. }
  assert (Hpend : forall k, 1 <= k <= STATE_SIZE - 2 ->
                    pending rules state k = nth 0 rules false).
  { intros k Hk. unfold pending. destruct (Z.eqb_spec k 0); [lia |].
    rewrite !Hcell by lia. reflexivity. }
  rewrite automaton_step_spec by side. split.
  - intros E. injection E as E.
    rewrite <- (Hpend 1) by lia.
    assert (H1 : cell (after rules state (Z.to_nat (STATE_SIZE - 1))) 1 = cell state 1)
      by (rewrite E; reflexivity).
    rewrite cell_after_step in H1 by side.
    destruct (Z.ltb_spec 1 (STATE_SIZE - 1)); [| lia].
    rewrite Hcell in H1 by lia. exact H1.
  - intros H0. f_equal. apply after_no_flag. intros k Hk.
    destruct (Z.eq_dec k 0) as [-> | Hne].
    + unfold pending. cbn [Z.eqb]. apply Hcell. lia.
    + rewrite Hpend by lia. exact H0.
Qed.

Lemma all_dead_fixed_iff_entry_0_witness :
  automaton_step STATE_SIZE_main (Some [0; 0; 0]) (Some RULE110) = Done [0; 0; 0]
  <-> nth 0 RULE110 false = false.
Proof.
  apply (all_dead_fixed_iff_entry_0 STATE_SIZE_main RULE110 [0; 0; 0]).
  - unfold STATE_SIZE_main. lia.
  - reflexivity.
  - reflexivity.
  - reflexivity.
Defined.

Lemma count_reads_app (t u : list event) :
  count_reads (t ++ u) = (count_reads t + count_reads u)%nat.
Proof. unfold count_reads. rewrite List.filter_app, length_app. reflexivity. Qed.

Lemma count_flips_app (t u : list event) :
  count_flips (t ++ u) = (count_flips t + count_flips u)%nat.
Proof. unfold count_flips. rewrite List.filter_app, length_app. reflexivity. Qed.

Lemma counts_events_upto (rules : list bool) (s0 : list block_t) (j : nat) :
  count_reads (events_upto rules s0 j) = (1 + 3 * j)%nat
  /\ (count_flips (events_upto rules s0 j) <= j)%nat.
Proof.
  induction j as [|j [IHr IHf]]; [split; [reflexivity | cbn; lia] |].
  cbn [events_upto]. rewrite count_reads_app, count_flips_app, IHr.
  unfold body_events.
  destruct (pending rules s0 (Z.of_nat j)); cbn; lia.
Qed.

(** X9.  A call of [automaton_step] on a row of [STATE_SIZE] cells reads a
    bit [3 * STATE_SIZE - 5] times (once for the first cell, three times in
    each of the [STATE_SIZE - 2] passes) and flips a bit at most
    [STATE_SIZE - 1] times. *)
Theorem automaton_step_access_counts (STATE_SIZE : Z) (rules : list bool)
    (state : list block_t) :
  3 <= STATE_SIZE -> length rules = 8%nat ->
  STATE_SIZE <= 8 * Z.of_nat (length state) ->
  exists state' t,
    automaton_step_body STATE_SIZE (Some rules) (mk_machine state [])
    = Done (tt, mk_machine state' t)
    /\ count_reads t = Z.to_nat (3 * STATE_SIZE - 5)
    /\ (count_flips t <= Z.to_nat (STATE_SIZE - 1))%nat.
Proof.
  intros HN Hr Hcov.
  exists (after rules state (Z.to_nat (STATE_SIZE - 1))), (step_events STATE_SIZE rules state).
  split; [apply automaton_step_body_spec; side |].
  unfold step_events. rewrite count_reads_app, count_flips_app.
  destruct (counts_events_upto rules state (Z.to_nat (STATE_SIZE - 2))) as [Hreads Hflips].
  rewrite Hreads.
  destruct (pending rules state (STATE_SIZE - 2)); cbn; lia.
Qed.

Lemma automaton_step_access_counts_witness :
  exists state' t,
    automaton_step_body STATE_SIZE_main (Some RULE110) (mk_machine automaton_state_main [])
    = Done (tt, mk_machine state' t)
    /\ count_reads t = Z.to_nat (3 * STATE_SIZE_main - 5)
    /\ (count_flips t <= Z.to_nat (STATE_SIZE_main - 1))%nat.
Proof.
  apply (automaton_step_access_counts STATE_SIZE_main RULE110 automaton_state_main).
  - unfold STATE_SIZE_main. lia.
  - reflexivity.
  - unfold automaton_state_main, STATE_SIZE_main; cbn [length mem]; lia.
Defined.

Lemma bind_Undefined {A B} (c : M A) (k : A -> M B) (m : machine) :
  c m = Undefined -> bind c k m = Undefined.
Proof. intros H. unfold bind. rewrite H. reflexivity. Qed.

Lemma get_bit_past_array (k : Z) (m : machine) :
  8 * Z.of_nat (length (mem m)) <= k ->
  get_bit (Some (view_of k)) m = Undefined.
Proof.
  intros Hk. unfold get_bit, assert_not_null. apply bind_Undefined.
  unfold load_block. cbn [pblock view_of].
  assert (Hdiv : Z.of_nat (length (mem m)) <= k / 8)
    by (apply Z.div_le_lower_bound; lia).
  destruct (Z.ltb_spec (k / 8) 0); [reflexivity |].
  rewrite (lookup_ge_None_2 (mem m) (Z.to_nat (k / 8))) by lia. reflexivity.
Qed.

Lemma for_loop_add (pflip_rules : option (list bool)) (a b : nat) :
  forall (i : Z) (ls : locals) (m : machine),
    for_loop pflip_rules (a + b) i ls m
    = bind (for_loop pflip_rules a i ls)
           (fun ls' => for_loop pflip_rules b (i + Z.of_nat a) ls') m.
Proof.
  induction a as [|a IH]; intros i ls m.
  - cbn [for_loop Nat.add]. unfold bind, ret. rewrite Z.add_0_r. reflexivity.
  - cbn [for_loop Nat.add]. unfold bind.
    destruct (loop_body pflip_rules i ls m) as [[ls' m'] | |]; [| reflexivity..].
    rewrite IH. unfold bind.
    replace (i + 1 + Z.of_nat a) with (i + Z.of_nat (S a)) by lia.
    reflexivity.
Qed.

(** X10.  On an array too short to hold the row, [automaton_step] reads
    past the end of the array: the call has no defined result. *)
Theorem automaton_step_short_array (STATE_SIZE : Z) (rules : list bool)
    (state : list block_t) :
  3 <= STATE_SIZE -> length rules = 8%nat ->
  8 * Z.of_nat (length state) < STATE_SIZE ->
  automaton_step STATE_SIZE (Some state) (Some rules) = Undefined.
Proof.
  intros HN Hr Hshort.
  assert (Hbody : automaton_step_body STATE_SIZE (Some rules) (mk_machine state [])
                  = Undefined).
  { unfold automaton_step_body. apply bind_Undefined.
    unfold automaton_step_loop.
    change {| pblock := 0; position := to_uint8_t (8 * sizeof_block_t - 1) |}
      with (view_of 0).
    destruct state as [|b0 state].
    { apply bind_Undefined. apply get_bit_past_array. cbn [mem length]. lia. }
    set (s0 := b0 :: state) in *.
    assert (Hlen : 1 <= Z.of_nat (length s0)) by (cbn [length s0]; lia).
    erewrite bind_Done by (apply get_bit_view; cbn [mem]; lia).
    cbn [mem log app].
    set (a := Z.to_nat (8 * Z.of_nat (length s0) - 2)).
    replace (Z.to_nat (STATE_SIZE + 1 - 3))
      with (a + S (Z.to_nat (STATE_SIZE - 8 * Z.of_nat (length s0) - 1)))%nat by lia.
    rewrite for_loop_add.
    pose proof (for_loop_spec rules s0 ltac:(lia) a 0 ltac:(lia)) as Hpre.
    change (Z.of_nat 0 + 3) with 3 in Hpre. cbn [Nat.add] in Hpre.
    erewrite bind_Done by exact Hpre.
    cbn [for_loop]. apply bind_Undefined.
    unfold loop_body. apply bind_Undefined.
    cbn [locals_at left_view center_view right_view].
    unfold evaluate, assert_not_null.
    do 2 (erewrite bind_Done
            by (apply get_bit_view; cbn [mem]; rewrite ?length_after; lia)).
    apply bind_Undefined. apply get_bit_past_array.
    cbn [mem]. rewrite length_after. lia.
  }
  unfold automaton_step. rewrite Hbody. reflexivity.
Qed.

Lemma automaton_step_short_array_witness :
  automaton_step STATE_SIZE_main (Some [0; 1]) (Some RULE110) = Undefined.
Proof.
  apply (automaton_step_short_array STATE_SIZE_main RULE110 [0; 1]).
  - unfold STATE_SIZE_main. lia.
  - reflexivity.
  - unfold automaton_state_main, STATE_SIZE_main; cbn [length mem]; lia.
Defined.

(** ** Printing *)

(** The text [pretty_print] writes for a row. *)
Lemma pretty_print_text (STATE_SIZE : Z) (state : list block_t) :
  1 <= STATE_SIZE < 2 ^ 31 -> well_sized STATE_SIZE state ->
  pretty_print STATE_SIZE (Some state)
  = Done (line_of (cells STATE_SIZE state) ++ [newline]).
Proof.
  intros HN Hws. unfold well_sized in Hws.
  pose proof (ARRAY_SIZE_covers STATE_SIZE ltac:(lia)) as Hcov.
  pose proof (Z.div_mod STATE_SIZE 8 ltac:(lia)) as Hdm.
  pose proof (Z.mod_pos_bound STATE_SIZE 8 ltac:(lia)) as Hmod.
  set (rem := if STATE_SIZE mod 8 * sizeof_block_t =? 0 then 8 * sizeof_block_t
              else STATE_SIZE mod 8 * sizeof_block_t).
  assert (Hrem : 1 <= rem <= 8 /\ STATE_SIZE = 8 * (ARRAY_SIZE STATE_SIZE - 1) + rem).
  { subst rem. unfold ARRAY_SIZE, sizeof_block_t.
    destruct (Z.eqb_spec (STATE_SIZE mod 8 * 1) 0); lia. }
  destruct Hrem as [Hrem HN8].
  unfold pretty_print. fold rem.
  rewrite (Z.mod_small (ARRAY_SIZE STATE_SIZE - 1)) by lia.
  set (last := Z.to_nat (ARRAY_SIZE STATE_SIZE - 1)).
  pose proof (pretty_print_loop_spec state last 0 ltac:(lia)) as Hloop.
  change (Z.of_nat 0) with 0 in Hloop. rewrite Hloop. cbn [obind].
  replace (ARRAY_SIZE STATE_SIZE - 1) with (Z.of_nat last) by lia.
  rewrite read_block_nth by lia. cbn [obind].
  unfold print_as_characters, to_uint8_t. rewrite (Z.mod_small rem) by lia.
  rewrite print_block_spec by lia. cbn [obind].
  rewrite cells_cells_from.
  replace (Z.to_nat STATE_SIZE) with (8 * last + Z.to_nat rem)%nat by lia.
  rewrite cells_from_app, line_of_app_spaced.
  - rewrite Nat.mul_0_r, Nat.add_0_l, <- app_assoc. reflexivity.
  - unfold cells_from. destruct (Z.to_nat rem) eqn:E; [lia | discriminate].
Qed.

Lemma length_line_of (cs : list bool) :
  cs <> [] -> length (line_of cs) = (2 * length cs - 1)%nat.
Proof.
  induction cs as [|c cs IH]; intros Hne; [congruence |].
  destruct cs as [|c' cs]; [reflexivity |].
  change (line_of (c :: c' :: cs)) with (glyph c :: space :: line_of (c' :: cs)).
  cbn [length] in *. rewrite IH by discriminate. lia.
Qed.

Lemma line_of_glyphs (cs : list bool) :
  forallb is_glyph_or_space (line_of cs) = true.
Proof.
  induction cs as [|c cs IH]; [reflexivity |].
  destruct cs as [|c' cs]; [destruct c; reflexivity |].
  change (line_of (c :: c' :: cs)) with (glyph c :: space :: line_of (c' :: cs)).
  cbn [forallb]. rewrite IH. destruct c; reflexivity.
Qed.

(** X11.  [print_block] with a bit count from 1 to 8 writes the first
    [bits] cells of the block, top bit first, as glyphs with one space
    between neighbours and none at the end. *)
Theorem print_block_first_cells (block : block_t) (bits : Z) :
  1 <= bits <= 8 ->
  print_block block bits = Done (line_of (cells bits [block])).
Proof.
  intros Hb. exact (print_block_spec [block] 0 bits Hb).
Qed.

Lemma print_block_first_cells_witness :
  print_block 176 4 = Done (line_of (cells 4 [176])).
Proof. apply (print_block_first_cells 176 4). lia. Defined.

(** X12.  For a bit count that fits [uint8_t], [print_block] fails its
    assertion exactly when the count is 0, and has no defined result
    exactly when the count exceeds the 8 bits of a block (the shift count
    [BLOCK_SIZE - bits] wraps around). *)
Theorem print_block_domain (block : block_t) (bits : Z) :
  0 <= bits < 256 ->
  (print_block block bits = AssertFailed <-> bits = 0)
  /\ (print_block block bits = Undefined <-> 8 < bits).
Proof.
  intros Hb.
  destruct (Z.eq_dec bits 0) as [-> | Hne].
  { split; (split; [intros H | intros H]); try reflexivity; try lia.
    cbv in H. discriminate H. }
  destruct (Z_le_gt_dec bits 8) as [Hle | Hgt].
  - pose proof (print_block_spec [block] 0 bits ltac:(lia)) as E.
    cbn [nth] in E. rewrite E.
    split; (split; [intros H; discriminate H | intros H; lia]).
  - assert (E : print_block block bits = Undefined).
    { unfold print_block, sizeof_block_t.
      destruct (Z.gtb_spec bits 0); [| lia].
      replace ((8 * 1 - bits) mod 2 ^ 64) with (2 ^ 64 + 8 - bits)
        by (apply (Z.mod_unique_pos _ _ (-1)); lia).
      destruct (Z.ltb_spec (2 ^ 64 + 8 - bits) 31); [lia | reflexivity]. }
    rewrite E. split; (split; [intros H | intros H]); try reflexivity;
      try discriminate H; lia.
Qed.

Lemma print_block_domain_witness :
  (print_block 176 9 = AssertFailed <-> 9 = 0)
  /\ (print_block 176 9 = Undefined <-> 8 < 9).
Proof. apply (print_block_domain 176 9). lia. Defined.

(** X13.  The text [pretty_print] writes for a row of [STATE_SIZE] cells
    is [2 * STATE_SIZE - 1] characters, each a [#] or a space, followed by
    one newline. *)
Theorem pretty_print_line_shape (STATE_SIZE : Z) (state : list block_t) :
  1 <= STATE_SIZE < 2 ^ 31 -> well_sized STATE_SIZE state ->
  exists body,
    pretty_print STATE_SIZE (Some state) = Done (body ++ [newline])
    /\ length body = Z.to_nat (2 * STATE_SIZE - 1)
    /\ forallb is_glyph_or_space body = true.
Proof.
  intros HN Hws. exists (line_of (cells STATE_SIZE state)).
  split; [apply pretty_print_text; assumption |].
  split; [| apply line_of_glyphs].
  rewrite length_line_of, length_cells; [lia |].
  intros E. apply (f_equal (@length bool)) in E.
  rewrite length_cells in E. cbn in E. lia.
Qed.

Lemma pretty_print_line_shape_witness :
  exists body,
    pretty_print STATE_SIZE_main (Some automaton_state_main) = Done (body ++ [newline])
    /\ length body = Z.to_nat (2 * STATE_SIZE_main - 1)
    /\ forallb is_glyph_or_space body = true.
Proof.
  apply (pretty_print_line_shape STATE_SIZE_main automaton_state_main).
  - unfold STATE_SIZE_main. lia.
  - reflexivity.
Defined.

(** X14.  [pretty_print] shows the cells of the row and nothing else: two
    arrays that agree on the [STATE_SIZE] cells print the same text, whatever
    their padding bits. *)
Theorem pretty_print_ignores_padding (STATE_SIZE : Z) (s s' : list block_t) :
  1 <= STATE_SIZE < 2 ^ 31 ->
  well_sized STATE_SIZE s -> well_sized STATE_SIZE s' ->
  cells STATE_SIZE s = cells STATE_SIZE s' ->
  pretty_print STATE_SIZE (Some s) = pretty_print STATE_SIZE (Some s').
Proof.
  intros HN Hs Hs' E.
  rewrite !pretty_print_text by assumption. rewrite E. reflexivity.
Qed.

Lemma pretty_print_ignores_padding_witness :
  pretty_print 20 (Some [0; 1; 32]) = pretty_print 20 (Some [0; 1; 47]).
Proof.
  apply (pretty_print_ignores_padding 20 [0; 1; 32] [0; 1; 47]).
  - lia.
  - reflexivity.
  - reflexivity.
  - reflexivity.
Defined.

(** ** The program *)

Lemma flat_map_seq_shift {A} (f : nat -> list A) (n : nat) :
  forall a, flat_map f (seq (S a) n) = flat_map (fun i => f (S i)) (seq a n).
Proof.
  induction n as [|n IH]; intros a; [reflexivity |].
  cbn [seq flat_map]. rewrite IH. reflexivity.
Qed.

(** X15.  Started in a state whose cell 0 is dead, the loop of [main]
    prints, round after round, the generations 1, 2, ... of the rule-110
    reference, one line each. *)
Theorem main_loop_prints_reference (generations : nat) (state : list block_t) :
  well_sized STATE_SIZE_main state -> cell state 0 = false ->
  main_loop generations state
  = Done (flat_map
            (fun i => line_of (naive_run rule110_result i (cells STATE_SIZE_main state))
                      ++ [newline])
            (seq 1 generations)).
Proof.
  revert state. induction generations as [|g IH]; intros state Hws H0; [reflexivity |].
  destruct (automaton_step_refines_naive_step STATE_SIZE_main state
              ltac:(unfold STATE_SIZE_main; lia) Hws H0)
    as [state1 [Hrun [Hws1 [H01 Hcells]]]].
  cbn [main_loop]. rewrite Hrun. cbn [obind].
  rewrite pretty_print_text by (first [exact Hws1 | unfold STATE_SIZE_main; lia]).
  cbn [obind]. rewrite (IH state1 Hws1 H01). cbn [obind].
  rewrite Hcells. cbn [seq flat_map]. rewrite (flat_map_seq_shift _ g 1). reflexivity.
Qed.

Lemma main_loop_prints_reference_witness :
  main_loop 100 automaton_state_main
  = Done (flat_map
            (fun i => line_of (naive_run rule110_result i
                                 (cells STATE_SIZE_main automaton_state_main))
                      ++ [newline])
            (seq 1 100)).
Proof.
  apply (main_loop_prints_reference 100 automaton_state_main).
  - reflexivity.
  - reflexivity.
Defined.

(** ** Across generations *)

Lemma automaton_step_frame (STATE_SIZE : Z) (state : list block_t) :
  3 <= STATE_SIZE -> STATE_SIZE <= 8 * Z.of_nat (length state) ->
  exists state',
    automaton_step STATE_SIZE (Some state) (Some RULE110) = Done state'
    /\ length state' = length state
    /\ cell state' 0 = false
    /\ (forall k, STATE_SIZE - 1 <= k -> cell state' k = cell state k).
Proof.
  intros HN Hcov.
  exists (after RULE110 state (Z.to_nat (STATE_SIZE - 1))).
  split; [apply automaton_step_spec; side |].
  split; [apply length_after |]. split.
  - rewrite cell_after_step by side.
    destruct (Z.ltb_spec 0 (STATE_SIZE - 1)); [| lia].
    unfold pending. cbn [Z.eqb]. apply xorb_nilpotent.
  - intros k Hk. rewrite cell_after_step by side.
    destruct (Z.ltb_spec k (STATE_SIZE - 1)); [lia | reflexivity].
Qed.

(** X16.  Over any number of generations run by [automaton_step] with
    [RULE110], the array keeps its length, the last cell and every bit
    after it keep their seed values, and from the first generation on cell 0
    is dead. *)
Theorem run_generations_boundaries (STATE_SIZE : Z) (n : nat) (state : list block_t) :
  3 <= STATE_SIZE -> STATE_SIZE <= 8 * Z.of_nat (length state) ->
  exists state',
    run_generations STATE_SIZE n state = Done state'
    /\ length state' = length state
    /\ (forall k, STATE_SIZE - 1 <= k -> cell state' k = cell state k)
    /\ ((0 < n)%nat -> cell state' 0 = false).
Proof.
  intros HN. revert state. induction n as [|n IH]; intros state Hcov.
  - exists state. repeat split; try reflexivity. lia.
  - destruct (automaton_step_frame STATE_SIZE state HN Hcov)
      as [state1 [Hrun [Hlen [H0 Hlast]]]].
    destruct (IH state1 ltac:(rewrite Hlen; exact Hcov))
      as [state' [Hrun' [Hlen' [Hlast' H0']]]].
    exists state'. cbn [run_generations]. rewrite Hrun.
    split; [exact Hrun' |]. split; [congruence |]. split.
    + intros k Hk. rewrite Hlast', Hlast by lia. reflexivity.
    + intros _. destruct n as [|n]; [| apply H0'; lia].
      cbn [run_generations] in Hrun'. injection Hrun' as <-. exact H0.
Qed.

Lemma run_generations_boundaries_witness :
  exists state',
    run_generations STATE_SIZE_main 100 [129; 66; 37] = Done state'
    /\ length state' = length [129; 66; 37]
    /\ (forall k, STATE_SIZE_main - 1 <= k -> cell state' k = cell [129; 66; 37] k)
    /\ ((0 < 100)%nat -> cell state' 0 = false).
Proof.
  apply (run_generations_boundaries STATE_SIZE_main 100 [129; 66; 37]).
  - unfold STATE_SIZE_main. lia.
  - unfold automaton_state_main, STATE_SIZE_main; cbn [length mem]; lia.
Defined.
